(** * Zapier error dashboard: the log store (db.py) and the API handlers (main.py)

    A shallow embedding of the two Python modules of the repository.

    - [db.py] keeps one SQLite table, [error_logs].  The table is modelled by
      the list of its rows in insertion order together with the counter that
      AUTOINCREMENT keeps in [sqlite_sequence]; every function of [db.py]
      takes the database and gives back the database after the call.
    - [main.py] holds the classifier [explain_error] and the FastAPI
      handlers.  A handler either returns a value or raises; the framework
      then turns that outcome into an HTTP status.

    Modelling conventions.
    - Python [str] is [string] (the UTF-8 bytes of the text); [str.lower] is
      modelled on the ASCII letters, which is all the rule table contains.
    - Python [int] is [Z].  An integer bound to a statement must fit
      SQLite's signed 64-bit INTEGER; binding any other raises OverflowError.
      The ids the table hands out itself are not bounded.
    - JSON numbers are integers; floating-point numbers are left out.
    - The wall clock is an input of every call that reads it.  It is given in
      milliseconds; [CURRENT_TIMESTAMP] keeps whole seconds, which is the
      resolution of the text 'YYYY-MM-DD HH:MM:SS' that SQLite stores.  A
      timestamp is carried as that number of seconds: equality and order of
      the texts are equality and order of the numbers.
    - [print] to standard output is not modelled. *)

From Stdlib Require Import ZArith String Ascii DecimalString.
From stdpp Require Import gmap strings list sorting.

Local Open Scope string_scope.
Local Open Scope Z_scope.

(** ** Python values, exceptions and outcomes *)

Module Py.

(** The values a decoded JSON body can hold ([Dict[str, Any]]), the
    floating-point numbers apart. *)
#[warnings="-register-all"]
Inductive pyval : Type :=
| PNone
| PBool (b : bool)
| PInt (z : Z)
| PStr (s : string)
| PList (l : list pyval)
| PDict (d : gmap string pyval).

(** Truth value of a Python object, as tested by [not x], [if x] and [x or y]. *)
Definition truthy (v : pyval) : bool :=
  match v with
  | PNone => false
  | PBool b => b
  | PInt z => negb (z =? 0)
  | PStr s => negb (String.eqb s EmptyString)
  | PList l => match l with [] => false | _ => true end
  | PDict d => negb (bool_decide (d = ∅))
  end.

(** [dict.get(key)]: the value, or [None] when the key is absent. *)
Definition dict_get (d : gmap string pyval) (key : string) : pyval :=
  match d !! key with
  | Some v => v
  | None => PNone
  end.

(** [str(n)] for an integer. *)
Definition str_int (z : Z) : string := NilZero.string_of_int (Z.to_int z).

(** The exceptions the two modules raise or meet.  Every one of them is a
    subclass of [Exception] ([OverflowError] is no [ValueError]);
    [sqlite3_IntegrityError] is a subclass of
    [sqlite3.Error], of which [sqlite3_Error] stands for any other instance
    (here: a parameter of a type that cannot be bound).  The detail of an
    [HTTPException] is a text, or [str(e)] of a caught exception. *)
Inductive exn : Type :=
| HTTPException (status_code : Z) (detail : detail)
| ValueError (msg : string)
| AttributeError
| OverflowError
| sqlite3_IntegrityError
| sqlite3_Error
with detail : Type :=
| Text (s : string)
| StrOf (e : exn).

(** What a call does: return a value or raise. *)
Inductive outcome (A : Type) : Type :=
| Returns (a : A)
| Raises (e : exn).
Arguments Returns {A} a.
Arguments Raises {A} e.

Definition is_ValueError (e : exn) : bool :=
  match e with ValueError _ => true | _ => false end.

Definition is_IntegrityError (e : exn) : bool :=
  match e with sqlite3_IntegrityError => true | _ => false end.

(** [str.lower()] on one character and on a string. *)
Definition lower_ascii (c : ascii) : ascii :=
  let n := nat_of_ascii c in
  if ((65 <=? n)%nat && (n <=? 90)%nat)%bool then ascii_of_nat (n + 32) else c.

Fixpoint lower (s : string) : string :=
  match s with
  | EmptyString => EmptyString
  | String c s' => String (lower_ascii c) (lower s')
  end.

(** [s.startswith(p)]. *)
Fixpoint startswith (p s : string) : bool :=
  match p, s with
  | EmptyString, _ => true
  | String a p', String b s' => (Ascii.eqb a b && startswith p' s')%bool
  | String _ _, EmptyString => false
  end.

(** [p in s] for two strings: [p] occurs somewhere in [s]. *)
Fixpoint str_in (p s : string) : bool :=
  (startswith p s ||
   match s with
   | EmptyString => false
   | String _ s' => str_in p s'
   end)%bool.

End Py.

(** ** db.py *)

Module Db.
Import Py.

(** A row of [error_logs]:
    [id INTEGER PRIMARY KEY AUTOINCREMENT], [zap_name TEXT NOT NULL],
    [error_message TEXT NOT NULL], [explanation TEXT],
    [timestamp DATETIME DEFAULT CURRENT_TIMESTAMP],
    [status TEXT DEFAULT 'unresolved'].  The same record stands for the
    dictionary [dict(row)] that the two SELECTs return: they select the six
    columns under their own names. *)
Record Row : Type := mkRow {
  id : Z;
  zap_name : string;
  error_message : string;
  explanation : option string;
  timestamp : Z;
  status : string
}.

(** The database file: the rows of [error_logs] in insertion order and the
    largest rowid ever handed out ([sqlite_sequence]). *)
Record Store : Type := mkStore {
  rows : list Row;
  seq : Z
}.

(** A database file that has just been created. *)
Definition fresh : Store := {| rows := []; seq := 0 |}.

(** [init_db]: CREATE TABLE IF NOT EXISTS and CREATE INDEX IF NOT EXISTS.
    [None] is the absent file; an existing table is left as it is.  The two
    indexes hold no data of their own. *)
Definition init_db (file : option Store) : Store :=
  match file with
  | None => fresh
  | Some db => db
  end.

(** [CURRENT_TIMESTAMP] at wall-clock time [clock] (milliseconds). *)
Definition CURRENT_TIMESTAMP (clock : Z) : Z := clock / 1000.

(** The integers [sqlite3] can bind to a [?]: those of SQLite's signed
    64-bit INTEGER. *)
Definition sqlite_int64 (z : Z) : bool :=
  ((-9223372036854775808 <=? z) && (z <=? 9223372036854775807))%bool.

(** Binding a Python integer to a [?]: "Python int too large to convert to
    SQLite INTEGER" outside the 64-bit range. *)
Definition bind_int (z : Z) : outcome Z :=
  if sqlite_int64 z then Returns z else Raises OverflowError.

(** Binding a Python value to a [?] of a TEXT column: [None] is NULL, a
    string is itself, an integer (and a [bool], which is an [int]) is bound
    as an integer and stored as its decimal text by the column's affinity; a
    list or a dict cannot be bound. *)
Definition bind_text (v : pyval) : outcome (option string) :=
  match v with
  | PNone => Returns None
  | PStr s => Returns (Some s)
  | PInt z =>
      match bind_int z with
      | Returns z' => Returns (Some (str_int z'))
      | Raises e => Raises e
      end
  | PBool b => Returns (Some (if b then "1" else "0"))
  | PList _ | PDict _ => Raises sqlite3_Error
  end.

(** UNIQUE(zap_name, error_message, timestamp): is there a row with this
    triple? *)
Definition same_key (z m : string) (ts : Z) (r : Row) : bool :=
  (String.eqb (zap_name r) z && String.eqb (error_message r) m
   && (timestamp r =? ts))%bool.

Definition key_taken (db : Store) (z m : string) (ts : Z) : bool :=
  existsb (same_key z m ts) (rows db).

(** The largest [id] among the rows (0 for an empty table). *)
Definition max_rowid (l : list Row) : Z :=
  foldr (fun r acc => Z.max (id r) acc) 0 l.

(** The rowid AUTOINCREMENT gives the next row: one more than the largest
    rowid that ever existed in the table. *)
Definition next_rowid (db : Store) : Z := Z.max (seq db) (max_rowid (rows db)) + 1.

(** [INSERT INTO error_logs (zap_name, error_message, explanation)
    VALUES (?, ?, ?)] followed by [conn.commit()].  The statement gives the
    rowid of the new row; it fails with an IntegrityError, leaving the table
    as it was, when a NOT NULL column would hold NULL or the UNIQUE triple is
    already there. *)
Definition execute_insert (db : Store) (clock : Z)
    (zap_name error_message explanation : pyval) : Store * outcome Z :=
  match bind_text zap_name, bind_text error_message, bind_text explanation with
  | Returns z, Returns m, Returns e =>
      match z, m with
      | Some z, Some m =>
          let ts := CURRENT_TIMESTAMP clock in
          if key_taken db z m ts then (db, Raises sqlite3_IntegrityError)
          else
            let rowid := next_rowid db in
            ({| rows := rows db ++ [mkRow rowid z m e ts "unresolved"];
                seq := rowid |},
             Returns rowid)
      | _, _ => (db, Raises sqlite3_IntegrityError)
      end
  | Raises x, _, _ | _, Raises x, _ | _, _, Raises x => (db, Raises x)
  end.

(** [insert_error_log]: the [lastrowid] of the insert, or [-1] when the
    insert raised an IntegrityError; any other exception is not caught. *)
Definition insert_error_log (db : Store) (clock : Z)
    (zap_name error_message explanation : pyval) : Store * outcome Z :=
  match execute_insert db clock zap_name error_message explanation with
  | (db', Returns lastrowid) => (db', Returns lastrowid)
  | (db', Raises e) =>
      if is_IntegrityError e then (db', Returns (-1)) else (db', Raises e)
  end.

(** [ORDER BY timestamp DESC]: the later timestamp comes first.  SQLite
    leaves the order of rows with equal timestamps open; the sort used here
    is one admissible choice. *)
Definition newer_first (a b : Row) : Prop := timestamp b <= timestamp a.

#[global] Instance newer_first_dec : RelDecision newer_first :=
  fun a b => Z_le_dec (timestamp b) (timestamp a).

Definition order_by_timestamp_desc (l : list Row) : list Row :=
  merge_sort newer_first l.

(** [LIMIT ?]: the first [n] rows; a negative limit is no limit. *)
Definition sql_limit (n : Z) (l : list Row) : list Row :=
  if n <? 0 then l else take (Z.to_nat n) l.

(** [get_all_logs(limit)]: [limit] is bound to the [?] of LIMIT.  With
    timestamps as stored by [insert_error_log],
    [strftime('%Y-%m-%d %H:%M:%S', timestamp)] is the stored text. *)
Definition get_all_logs (db : Store) (limit : Z) : outcome (list Row) :=
  match bind_int limit with
  | Returns n => Returns (sql_limit n (order_by_timestamp_desc (rows db)))
  | Raises e => Raises e
  end.

(** The default of the [limit] parameter. *)
Definition default_limit : Z := 1000.

Definition valid_statuses : list string := ["unresolved"; "resolved"; "dismissed"].

Definition ValueError_invalid_status : exn :=
  ValueError "Invalid status. Must be one of: ['unresolved', 'resolved', 'dismissed']".

(** [UPDATE error_logs SET status = ? WHERE id = ?]: the rows after the
    statement, and the number of rows it matched ([cursor.rowcount]). *)
Definition set_status (new_status : string) (r : Row) : Row :=
  mkRow (id r) (zap_name r) (error_message r) (explanation r) (timestamp r) new_status.

Definition execute_update (l : list Row) (log_id : Z) (new_status : string)
    : list Row * Z :=
  (map (fun r => if id r =? log_id then set_status new_status r else r) l,
   Z.of_nat (length (filter (fun r => id r = log_id) l))).

(** [update_log_status(log_id, new_status)]: the status is checked first,
    then [log_id] is bound to the [?] of WHERE. *)
Definition update_log_status (db : Store) (log_id : Z) (new_status : string)
    : Store * outcome bool :=
  if negb (bool_decide (new_status ∈ valid_statuses)) then
    (db, Raises ValueError_invalid_status)
  else
    match bind_int log_id with
    | Raises e => (db, Raises e)
    | Returns log_id' =>
        let '(rows', rowcount) := execute_update (rows db) log_id' new_status in
        ({| rows := rows'; seq := seq db |}, Returns (0 <? rowcount))
    end.

(** [clear_all_logs()]: DELETE FROM error_logs, giving the number of rows
    deleted.  The AUTOINCREMENT counter is kept. *)
Definition clear_all_logs (db : Store) : Store * Z :=
  ({| rows := []; seq := seq db |}, Z.of_nat (length (rows db))).

(** [get_logs_by_status(status)]: WHERE status = ? ORDER BY timestamp DESC. *)
Definition get_logs_by_status (db : Store) (status0 : string) : list Row :=
  order_by_timestamp_desc (filter (fun r => status r = status0) (rows db)).

End Db.

(** ** main.py *)

Module Main.
Import Py Db.

(** The validated body of POST /api/errors ([ErrorLogCreate]): pydantic has
    checked that [zap_name] and [error_message] are strings and that
    [explanation] is a string or absent, and nothing more. *)
Record ErrorLogCreate : Type := mkErrorLogCreate {
  create_zap_name : string;
  create_error_message : string;
  create_explanation : option string
}.

(** [ERROR_EXPLANATIONS]: a dict literal, iterated in the order written. *)
Definition ERROR_EXPLANATIONS : list (string * string) :=
  [ ("not found", "Resource was renamed or deleted");
    ("missing required field", "Check if field names changed");
    ("auth expired", "Reauthorization needed");
    ("rate limit", "API rate limit reached");
    ("invalid data type", "Check field mappings") ].

Definition no_explanation : string := "No specific explanation available".

(** The [for] loop of [explain_error] over the items still to visit. *)
Fixpoint scan_explanations (items : list (string * string)) (error_lower : string)
    : string :=
  match items with
  | [] => no_explanation
  | (pattern, explanation) :: items' =>
      if str_in pattern error_lower then explanation
      else scan_explanations items' error_lower
  end.

(** [explain_error(error_msg)]. *)
Definition explain_error (error_msg : string) : string :=
  let error_lower := lower error_msg in
  scan_explanations ERROR_EXPLANATIONS error_lower.

(** [explain_error] called on a value of a JSON body: only a string has a
    method [lower]. *)
Definition explain_error_any (error_msg : pyval) : outcome string :=
  match error_msg with
  | PStr s => Returns (explain_error s)
  | _ => Raises AttributeError
  end.

(** What a handler returns. *)
Inductive retval : Type :=
| JsonId (log_id : Z)
| JsonMessage (message : string)
| JsonLogs (logs : list Row)
| JSONResponse (status_code : Z) (detail : string)
| StreamingResponse (body : string) (content_disposition : string).

(** The status FastAPI answers with: the route's own status code
    ([status_code=201] in the decorator, 200 otherwise) for a returned value,
    the status of a returned response object or of a raised [HTTPException],
    and 500 for any other exception. *)
Definition http_status (route_status : Z) (o : outcome retval) : Z :=
  match o with
  | Returns (JSONResponse c _) => c
  | Returns _ => route_status
  | Raises (HTTPException c _) => c
  | Raises _ => 500
  end.

(** The body of the [try] block of [receive_zapier_payload]. *)
Definition receive_zapier_payload_try (db : Store) (clock : Z)
    (payload : gmap string pyval) : Store * outcome retval :=
  let zap_name := dict_get payload "zap_name" in
  let error_message := dict_get payload "error_message" in
  let timestamp := dict_get payload "timestamp" in
  if (negb (truthy zap_name) || negb (truthy error_message))%bool then
    (db, Raises (HTTPException 400 (Text "Missing zap_name or error_message")))
  else
    match explain_error_any error_message with
    | Raises e => (db, Raises e)
    | Returns explanation =>
        match insert_error_log db clock zap_name error_message (PStr explanation) with
        | (db', Raises e) => (db', Raises e)
        | (db', Returns log_id) =>
            if log_id =? -1 then (db', Returns (JSONResponse 409 "Duplicate log entry"))
            else (db', Returns (JsonId log_id))
        end
    end.

(** [receive_zapier_payload]: POST /api/zapier_payload, [status_code=201].
    [except Exception as e] catches every exception raised in the [try]
    block and raises [HTTPException(status_code=500, detail=str(e))]. *)
Definition receive_zapier_payload (db : Store) (clock : Z)
    (payload : gmap string pyval) : Store * outcome retval :=
  match receive_zapier_payload_try db clock payload with
  | (db', Returns v) => (db', Returns v)
  | (db', Raises e) => (db', Raises (HTTPException 500 (StrOf e)))
  end.

(** [a or b] on an optional string. *)
Definition or_else (a : option string) (b : string) : string :=
  match a with
  | Some s => if String.eqb s EmptyString then b else s
  | None => b
  end.

(** [create_error_log]: POST /api/errors, [status_code=201]. *)
Definition create_error_log (db : Store) (clock : Z) (error : ErrorLogCreate)
    : Store * outcome retval :=
  let explanation :=
    or_else (create_explanation error) (explain_error (create_error_message error)) in
  match insert_error_log db clock (PStr (create_zap_name error))
          (PStr (create_error_message error)) (PStr explanation) with
  | (db', Raises e) => (db', Raises e)
  | (db', Returns log_id) =>
      if log_id =? -1 then (db', Raises (HTTPException 409 (Text "Duplicate log entry")))
      else (db', Returns (JsonId log_id))
  end.

(** [if status:] on an optional query parameter. *)
Definition given (status : option string) : option string :=
  match status with
  | Some s => if String.eqb s EmptyString then None else Some s
  | None => None
  end.

(** The logs both [get_logs] and [export_logs] select: [get_all_logs()] is
    called without an argument, that is with the default limit. *)
Definition select_logs (db : Store) (status : option string) : outcome (list Row) :=
  match given status with
  | Some s => Returns (get_logs_by_status db s)
  | None => get_all_logs db default_limit
  end.

(** [get_logs]: GET /api/logs.  [except Exception as e] turns whatever the
    selection raises into [HTTPException(status_code=500, detail=str(e))]. *)
Definition get_logs (db : Store) (status : option string) : outcome retval :=
  match select_logs db status with
  | Returns logs => Returns (JsonLogs logs)
  | Raises e => Raises (HTTPException 500 (StrOf e))
  end.

(** [update_log]: PATCH /api/logs/{log_id}.  [except ValueError] catches the
    ValueError of [update_log_status] and nothing else. *)
Definition update_log (db : Store) (log_id : Z) (update_status : string)
    : Store * outcome retval :=
  match update_log_status db log_id update_status with
  | (db', Returns success) =>
      if negb success then (db', Raises (HTTPException 404 (Text "Log not found")))
      else (db', Returns (JsonMessage "Status updated"))
  | (db', Raises e) =>
      if is_ValueError e then (db', Raises (HTTPException 400 (StrOf e)))
      else (db', Raises e)
  end.

(** [delete_all_logs]: DELETE /api/logs. *)
Definition delete_all_logs (db : Store) : Store * outcome retval :=
  let '(db', count) := clear_all_logs db in
  (db', Returns (JsonMessage ("Deleted " +:+ str_int count +:+ " logs"))).

(** *** The CSV writer ([csv.DictWriter], dialect excel) *)

Definition quotechar : ascii := ascii_of_nat 34.
Definition CR : ascii := ascii_of_nat 13.
Definition LF : ascii := ascii_of_nat 10.
Definition lineterminator : string := String CR (String LF EmptyString).

Fixpoint has_special (s : string) : bool :=
  match s with
  | EmptyString => false
  | String c s' =>
      (Ascii.eqb c "," || Ascii.eqb c quotechar || Ascii.eqb c CR || Ascii.eqb c LF
       || has_special s')%bool
  end.

Fixpoint double_quotes (s : string) : string :=
  match s with
  | EmptyString => EmptyString
  | String c s' =>
      if Ascii.eqb c quotechar then String c (String c (double_quotes s'))
      else String c (double_quotes s')
  end.

(** QUOTE_MINIMAL: a field is quoted when it holds the delimiter, the quote
    character or a character of the line terminator. *)
Definition csv_field (s : string) : string :=
  if has_special s then String quotechar (double_quotes s +:+ String quotechar EmptyString)
  else s.

Fixpoint join_fields (fields : list string) : string :=
  match fields with
  | [] => EmptyString
  | [f] => f
  | f :: fields' => f +:+ "," +:+ join_fields fields'
  end.

(** [writer.writerow(fields)]: a row that is one empty field is written as
    a pair of quotes. *)
Definition writerow (fields : list string) : string :=
  match fields with
  | [f] =>
      if String.eqb f EmptyString
      then String quotechar (String quotechar lineterminator)
      else csv_field f +:+ lineterminator
  | _ => join_fields (map csv_field fields) +:+ lineterminator
  end.

Section CsvExport.

(** [strftime('%Y-%m-%d %H:%M:%S', timestamp)] of the two SELECTs: the text
    of a stored timestamp. *)
Variable strftime : Z -> string.

(** [dict(row)], each value as the writer prints it ([None] as the empty
    field, an integer through [str]). *)
Definition row_dict (r : Row) : list (string * string) :=
  [ ("id", str_int (id r));
    ("zap_name", zap_name r);
    ("error_message", error_message r);
    ("explanation", default EmptyString (explanation r));
    ("timestamp", strftime (timestamp r));
    ("status", status r) ].

(** [rowdict.get(key, restval)] with the default [restval] of ''. *)
Definition rowdict_get (rowdict : list (string * string)) (key : string) : string :=
  match list_find (fun kv => kv.1 = key) rowdict with
  | Some (_, (_, v)) => v
  | None => EmptyString
  end.

(** [logs[0].keys() if logs else []]. *)
Definition fieldnames_of (logs : list Row) : list string :=
  match logs with
  | [] => []
  | r :: _ => map fst (row_dict r)
  end.

Definition writeheader (fieldnames : list string) : string :=
  writerow fieldnames.

Fixpoint writerows (fieldnames : list string) (logs : list Row) : string :=
  match logs with
  | [] => EmptyString
  | r :: logs' =>
      writerow (map (rowdict_get (row_dict r)) fieldnames) +:+ writerows fieldnames logs'
  end.

(** [export_logs]: GET /api/logs/export.  [now_stamp] is
    [datetime.now().strftime("%Y%m%d_%H%M%S")]. *)
Definition export_logs (db : Store) (status : option string) (format : string)
    (now_stamp : string) : outcome retval :=
  match select_logs db status with
  | Raises e => Raises e
  | Returns logs =>
      if String.eqb format "csv" then
        let fieldnames := fieldnames_of logs in
        let output := writeheader fieldnames +:+ writerows fieldnames logs in
        Returns (StreamingResponse output
                   ("attachment; filename=zapier_logs_" +:+ now_stamp +:+ ".csv"))
      else Raises (HTTPException 400 (Text "Unsupported export format"))
  end.

End CsvExport.

End Main.

(** ** The system as a whole: calls, requests and reachable databases *)

Module Sys.
Import Py Db Main.

(** An optional string as the Python value passed for it. *)
Definition of_opt (e : option string) : pyval :=
  match e with
  | Some s => PStr s
  | None => PNone
  end.

(** A call of one of the functions of [db.py]. *)
Inductive call : Type :=
| InitDb
| InsertErrorLog (clock : Z) (zap_name error_message explanation : pyval)
| GetAllLogs (limit : Z)
| UpdateLogStatus (log_id : Z) (new_status : string)
| ClearAllLogs
| GetLogsByStatus (status : string).

(** The database after a call. *)
Definition run (c : call) (db : Store) : Store :=
  match c with
  | InitDb => init_db (Some db)
  | InsertErrorLog clock z m e => (insert_error_log db clock z m e).1
  | GetAllLogs _ => db
  | UpdateLogStatus log_id new_status => (update_log_status db log_id new_status).1
  | ClearAllLogs => (clear_all_logs db).1
  | GetLogsByStatus _ => db
  end.

Definition is_update (c : call) : bool :=
  match c with
  | UpdateLogStatus _ _ => true
  | _ => false
  end.

(** The databases the functions of [db.py] can produce, starting from a
    file that [init_db] created. *)
Inductive reachable : Store -> Prop :=
| reachable_init : reachable (init_db None)
| reachable_run c db : reachable db -> reachable (run c db).

(** A request to one of the endpoints of [main.py]. *)
Inductive request : Type :=
| PostZapierPayload (clock : Z) (payload : gmap string pyval)
| PostErrors (clock : Z) (error : ErrorLogCreate)
| GetLogs (status : option string)
| PatchLog (log_id : Z) (update_status : string)
| DeleteLogs
| GetExport (status : option string) (format : string).

(** The database after a request has been served. *)
Definition serve (q : request) (db : Store) : Store :=
  match q with
  | PostZapierPayload clock payload => (receive_zapier_payload db clock payload).1
  | PostErrors clock error => (create_error_log db clock error).1
  | GetLogs _ => db
  | PatchLog log_id update_status => (update_log db log_id update_status).1
  | DeleteLogs => (delete_all_logs db).1
  | GetExport _ _ => db
  end.

(** The databases the application can produce: [init_db()] runs when the
    module is loaded, then requests are served. *)
Inductive served : Store -> Prop :=
| served_init : served (init_db None)
| served_request q db : served db -> served (serve q db).

(** The database after an insert that stored its row. *)
Definition inserted (db : Store) (clock : Z) (z m : string) (e : option string) : Store :=
  {| rows := rows db ++ [mkRow (next_rowid db) z m e (CURRENT_TIMESTAMP clock) "unresolved"];
     seq := next_rowid db |}.

(** The columns of the table, the header a schema-derived export would have. *)
Definition schema_header : list string :=
  ["id"; "zap_name"; "error_message"; "explanation"; "timestamp"; "status"].

(** What [receive_zapier_payload] raises in its [try] block when a required
    field is missing or falsy. *)
Definition missing_fields : exn :=
  HTTPException 400 (Text "Missing zap_name or error_message").

(** The triple of the UNIQUE constraint. *)
Definition key (r : Row) : string * string * Z :=
  (zap_name r, error_message r, timestamp r).

(** The number of stored records with a given triple. *)
Definition count_key (db : Store) (z m : string) (ts : Z) : nat :=
  length (filter (fun r => key r = (z, m, ts)) (rows db)).

(** The uniqueness invariant of the table. *)
Definition unique_keys (db : Store) : Prop := NoDup (map key (rows db)).

(** The primary key: no two rows share an id. *)
Definition unique_ids (db : Store) : Prop := NoDup (map id (rows db)).

(** [p] occurs in [s] as a substring. *)
Definition occurs_in (p s : string) : Prop := exists a b, s = a +:+ p +:+ b.

(** The classifier as the specification words it: the result is the
    explanation of the first pattern of the table that occurs in the text,
    or the fallback when no pattern occurs. *)
Definition first_match (table : list (string * string)) (s result : string) : Prop :=
  (exists pre p post,
      table = (pre ++ (p, result) :: post)%list /\ occurs_in p s /\
      Forall (fun kv => ~ occurs_in kv.1 s) pre)
  \/ (Forall (fun kv => ~ occurs_in kv.1 s) table /\
      result = "No specific explanation available").

(** A sequence is newest-first. *)
Definition newest_first (l : list Row) : Prop :=
  forall i j a b, (i <= j)%nat -> l !! i = Some a -> l !! j = Some b ->
                  timestamp b <= timestamp a.

(** Two rows agree on every column but [status]. *)
Definition same_but_status (a b : Row) : Prop :=
  id a = id b /\ zap_name a = zap_name b /\ error_message a = error_message b /\
  explanation a = explanation b /\ timestamp a = timestamp b.

(** The database after a sequence of calls, the first call first. *)
Definition run_all (cs : list call) (db : Store) : Store :=
  foldl (fun d c => run c d) db cs.

(** The values of a row in the order of the columns, each as the CSV writer
    prints it. *)
Definition row_values (strftime : Z -> string) (r : Row) : list string :=
  [ str_int (id r); zap_name r; error_message r; default EmptyString (explanation r);
    strftime (timestamp r); status r ].

(** The lines [writerows] writes for a list of rows, one after the other. *)
Fixpoint csv_lines (strftime : Z -> string) (logs : list Row) : string :=
  match logs with
  | [] => EmptyString
  | r :: logs' => writerow (row_values strftime r) +:+ csv_lines strftime logs'
  end.

End Sys.

Import Py Db Main Sys.

(** ** The classifier *)

Lemma startswith_spec p s : startswith p s = true <-> exists b, s = p +:+ b.
Proof.
  revert s; induction p as [|a p IH]; intros s; simpl.
  - split; [intros _; by exists s | done].
  - destruct s as [|c s].
    + split; [done | intros [b Hb]; discriminate].
    + rewrite andb_true_iff, IH. split.
      * intros [Hac [b ->]]. apply Ascii.eqb_eq in Hac as ->. by exists b.
      * intros [b Hb]. injection Hb as -> ->. split; [apply Ascii.eqb_refl | by exists b].
Qed.

Lemma str_in_spec p s : str_in p s = true <-> occurs_in p s.
Proof.
  induction s as [|c s IH].
  - cbn [str_in]. rewrite orb_false_r, startswith_spec. split.
    + intros [b Hb]. by exists EmptyString, b.
    + intros [a [b Hab]]. destruct a; [by exists b | discriminate].
  - cbn [str_in]. rewrite orb_true_iff, startswith_spec, IH. split.
    + intros [[b Hb] | [a [b Hab]]].
      * by exists EmptyString, b.
      * exists (String c a), b. simpl. by rewrite Hab.
    + intros [a [b Hab]]. destruct a as [|c' a].
      * left. by exists b.
      * right. simpl in Hab. injection Hab as -> ->. by exists a, b.
Qed.

Lemma scan_explanations_first_match table s :
  first_match table s (scan_explanations table s).
Proof.
  induction table as [|[p e] table IH]; simpl.
  - right. by split.
  - destruct (str_in p s) eqn:Hp.
    + left. exists [], p, table. apply str_in_spec in Hp.
      split; [reflexivity | split; [exact Hp | constructor]].
    + assert (~ occurs_in p s) as Hno.
      { rewrite <- str_in_spec. by rewrite Hp. }
      remember (scan_explanations table s) as r eqn:Hr. clear Hr.
      destruct IH as [(pre & q & post & -> & Hq & Hpre) | [Hall Hres]].
      * left. exists ((p, e) :: pre), q, post.
        split; [reflexivity | split; [exact Hq | by constructor]].
      * right. split; [by constructor | done].
Qed.

(** C2. [explain_error] lowercases its input and returns the explanation of
    the first pattern of [ERROR_EXPLANATIONS], in the order of the table,
    that occurs in the lowercased text, or "No specific explanation
    available" when none occurs; the match is case-insensitive on the two
    examples of the specification. *)
Theorem explain_error_first_match :
  (forall error_msg : string,
      first_match ERROR_EXPLANATIONS (lower error_msg) (explain_error error_msg))
  /\ explain_error "Auth Expired for connection" = "Reauthorization needed"
  /\ explain_error "some unknown failure" = "No specific explanation available".
Proof.
  split_and!; [| reflexivity | reflexivity].
  intros error_msg. apply scan_explanations_first_match.
Qed.

(** ** The table: insertion and the uniqueness invariant *)

Lemma same_key_spec z m ts r : same_key z m ts r = true <-> key r = (z, m, ts).
Proof.
  unfold same_key, key. rewrite !andb_true_iff, !String.eqb_eq, Z.eqb_eq.
  split; [intros [[-> ->] ->]; reflexivity | intros [= -> -> ->]; auto].
Qed.

Lemma key_taken_spec db z m ts :
  key_taken db z m ts = true <-> (z, m, ts) ∈ map key (rows db).
Proof.
  unfold key_taken. rewrite existsb_exists, list_elem_of_fmap.
  split.
  - intros (r & Hin & Hk). exists r. apply same_key_spec in Hk.
    split; [done | by apply list_elem_of_In].
  - intros (r & Hk & Hin). exists r. split; [by apply list_elem_of_In |].
    by apply same_key_spec.
Qed.

Lemma key_taken_false db z m ts :
  key_taken db z m ts = false -> (z, m, ts) ∉ map key (rows db).
Proof. intros H Hin. apply key_taken_spec in Hin. congruence. Qed.

(** An insert leaves the database as it was, or appends one row, made of the
    bound values, whose triple was not there. *)
Lemma execute_insert_cases db clock z m e :
  (execute_insert db clock z m e).1 = db \/
  exists z' m' e', bind_text z = Returns (Some z') /\ bind_text m = Returns (Some m') /\
                   key_taken db z' m' (CURRENT_TIMESTAMP clock) = false /\
                   execute_insert db clock z m e
                   = (inserted db clock z' m' e', Returns (next_rowid db)).
Proof.
  unfold execute_insert.
  destruct (bind_text z) as [[z'|]|]; destruct (bind_text m) as [[m'|]|];
    destruct (bind_text e) as [e'|]; simpl; auto.
  destruct (key_taken db z' m' (CURRENT_TIMESTAMP clock)) eqn:Hk; simpl; auto.
  right. by exists z', m', e'.
Qed.

Lemma insert_error_log_cases db clock z m e :
  (insert_error_log db clock z m e).1 = db \/
  exists z' m' e', bind_text z = Returns (Some z') /\ bind_text m = Returns (Some m') /\
                   key_taken db z' m' (CURRENT_TIMESTAMP clock) = false /\
                   insert_error_log db clock z m e
                   = (inserted db clock z' m' e', Returns (next_rowid db)).
Proof.
  unfold insert_error_log.
  destruct (execute_insert_cases db clock z m e)
    as [H | (z' & m' & e' & Hz & Hm & Hk & H)].
  - destruct (execute_insert db clock z m e) as [db' [r|x]]; simpl in *; auto.
    destruct (is_IntegrityError x); auto.
  - rewrite H. right. by exists z', m', e'.
Qed.

(** The insert of two strings and an optional explanation. *)
Lemma insert_error_log_str db clock z m e :
  insert_error_log db clock (PStr z) (PStr m) (of_opt e) =
  if key_taken db z m (CURRENT_TIMESTAMP clock) then (db, Returns (-1))
  else (inserted db clock z m e, Returns (next_rowid db)).
Proof.
  unfold insert_error_log, execute_insert.
  destruct e as [e|]; simpl;
    destruct (key_taken db z m (CURRENT_TIMESTAMP clock)); reflexivity.
Qed.

Lemma max_rowid_ge l r : r ∈ l -> id r <= max_rowid l.
Proof.
  induction 1 as [r l | r r' l Hin IH]; simpl; lia.
Qed.

Lemma max_rowid_nonneg l : 0 <= max_rowid l.
Proof. induction l; simpl; lia. Qed.

Lemma next_rowid_fresh db : next_rowid db ∉ map id (rows db).
Proof.
  intros Hin. apply list_elem_of_fmap in Hin as (r & Hid & Hin).
  apply max_rowid_ge in Hin. unfold next_rowid in Hid. lia.
Qed.

Lemma next_rowid_pos db : 1 <= next_rowid db.
Proof. unfold next_rowid. pose proof (max_rowid_nonneg (rows db)). lia. Qed.

Lemma NoDup_snoc {A} (l : list A) (x : A) : NoDup l -> x ∉ l -> NoDup (l ++ [x]).
Proof.
  intros Hl Hx. apply NoDup_app. split_and!; [done | | apply NoDup_singleton].
  intros y Hy ->%list_elem_of_singleton. done.
Qed.

Lemma execute_update_keys l log_id s :
  map key (execute_update l log_id s).1 = map key l.
Proof.
  unfold execute_update; simpl. induction l as [|r l IH]; simpl; [done |].
  rewrite IH. by destruct (id r =? log_id).
Qed.

Lemma execute_update_ids l log_id s :
  map id (execute_update l log_id s).1 = map id l.
Proof.
  unfold execute_update; simpl. induction l as [|r l IH]; simpl; [done |].
  rewrite IH. by destruct (id r =? log_id).
Qed.

Lemma update_log_status_rows db log_id s :
  (update_log_status db log_id s).1 = db \/
  rows (update_log_status db log_id s).1 = (execute_update (rows db) log_id s).1.
Proof.
  unfold update_log_status, bind_int.
  destruct (negb (bool_decide (s ∈ valid_statuses))); simpl; auto.
  destruct (sqlite_int64 log_id); simpl; auto.
Qed.

(** The two constraints of the table hold in every database the functions
    of [db.py] produce. *)
Lemma reachable_unique db : reachable db -> unique_keys db /\ unique_ids db.
Proof.
  unfold unique_keys, unique_ids.
  induction 1 as [|c db Hr [IHk IHi]]; simpl.
  - split; constructor.
  - destruct c; simpl; auto.
    + destruct (insert_error_log_cases db clock zap_name0 error_message0 explanation0)
        as [-> | (z & m & e & _ & _ & Hk & ->)]; [auto |].
      simpl. rewrite !map_app. simpl. split.
      * apply NoDup_snoc; [done | by apply key_taken_false].
      * apply NoDup_snoc; [done | apply next_rowid_fresh].
    + destruct (update_log_status_rows db log_id new_status) as [-> | ->]; [auto |].
      by rewrite execute_update_keys, execute_update_ids.
    + split; constructor.
Qed.

(** Whatever the endpoints do to the database, the functions of [db.py] do. *)
Lemma serve_run q db : serve q db = db \/ exists c, serve q db = run c db.
Proof.
  destruct q; simpl; auto.
  - right. unfold receive_zapier_payload, receive_zapier_payload_try.
    destruct (_ || _)%bool; [by exists (GetAllLogs 0) |].
    destruct (explain_error_any _) as [x|]; [| by exists (GetAllLogs 0)].
    exists (InsertErrorLog clock (dict_get payload "zap_name")
              (dict_get payload "error_message") (PStr x)). simpl.
    destruct (insert_error_log _ _ _ _ _) as [db' [i|]]; simpl; [| done].
    by destruct (i =? -1).
  - right. unfold create_error_log.
    exists (InsertErrorLog clock (PStr (create_zap_name error))
              (PStr (create_error_message error))
              (PStr (or_else (create_explanation error)
                       (explain_error (create_error_message error))))). simpl.
    destruct (insert_error_log _ _ _ _ _) as [db' [i|]]; simpl; [| done].
    by destruct (i =? -1).
  - right. exists (UpdateLogStatus log_id update_status). unfold update_log. simpl.
    destruct (update_log_status _ _ _) as [db' [b|x]]; simpl.
    + by destruct (negb b).
    + by destruct (is_ValueError x).
  - right. by exists ClearAllLogs.
Qed.

Lemma served_reachable db : served db -> reachable db.
Proof.
  induction 1 as [|q db Hs IH]; [constructor |].
  destruct (serve_run q db) as [-> | [c ->]]; [done | by constructor].
Qed.

Lemma filter_none {A} (P : A -> Prop) `{!forall x, Decision (P x)} (l : list A) :
  (forall x, x ∈ l -> ~ P x) -> filter P l = [].
Proof.
  induction l as [|a l IH]; intros Hl; [done |].
  rewrite filter_cons. destruct (decide (P a)) as [Ha | _].
  - destruct (Hl a); [by left | done].
  - apply IH. intros x Hx. apply Hl. by right.
Qed.

Lemma count_key_one l k :
  NoDup (map key l) -> k ∈ map key l ->
  length (filter (fun r => key r = k) l) = 1%nat.
Proof.
  induction l as [|r l IH]; simpl; intros Hnd Hin.
  - by apply elem_of_nil in Hin.
  - apply NoDup_cons in Hnd as [Hr Hnd]. rewrite filter_cons.
    destruct (decide (key r = k)) as [Heq | Hne]; simpl.
    + f_equal. rewrite filter_none; [done |].
      intros r' Hr' Hk. apply Hr. rewrite Heq, <- Hk. by apply list_elem_of_fmap_2.
    + apply IH; [done |]. apply elem_of_cons in Hin as [Hk | Hin]; [congruence | done].
Qed.

(** C1. In every database the store can reach, the triple (zap_name,
    error_message, timestamp) is unique; and when the same zap_name and
    error_message are inserted twice within one second, the second call
    returns the duplicate signal [-1] and leaves the database exactly as the
    first call left it, with one record for the triple. *)
Theorem duplicate_insert_rejected :
  forall db : Store,
    reachable db ->
    unique_keys db /\
    forall (clock1 clock2 : Z) (z m : string) (e1 e2 : option string),
      CURRENT_TIMESTAMP clock1 = CURRENT_TIMESTAMP clock2 ->
      let first := insert_error_log db clock1 (PStr z) (PStr m) (of_opt e1) in
      let second := insert_error_log first.1 clock2 (PStr z) (PStr m) (of_opt e2) in
      second.2 = Returns (-1) /\
      second.1 = first.1 /\
      count_key second.1 z m (CURRENT_TIMESTAMP clock1) = 1%nat.
Proof.
  intros db Hr. split; [by apply reachable_unique |].
  intros clock1 clock2 z m e1 e2 Hsec first second.
  assert (reachable first.1) as Hr1.
  { apply (reachable_run (InsertErrorLog clock1 (PStr z) (PStr m) (of_opt e1))), Hr. }
  assert (key_taken first.1 z m (CURRENT_TIMESTAMP clock1) = true) as Htaken.
  { subst first. rewrite insert_error_log_str.
    destruct (key_taken db z m (CURRENT_TIMESTAMP clock1)) eqn:Hk; simpl; [done |].
    apply key_taken_spec. simpl. rewrite map_app. apply elem_of_app. right.
    by apply list_elem_of_singleton. }
  assert (second = (first.1, Returns (-1))) as ->.
  { subst second. rewrite insert_error_log_str, <- Hsec. by rewrite Htaken. }
  simpl. split_and!; [done | done |].
  apply count_key_one; [by apply reachable_unique | by apply key_taken_spec].
Qed.

(** The theorem at work: the database just created, and two inserts at
    12.000 s and 12.999 s of the same zap and message. *)
Lemma duplicate_insert_rejected_witness :
  let first := insert_error_log (init_db None) 12000 (PStr "zap") (PStr "boom") (of_opt None) in
  let second := insert_error_log first.1 12999 (PStr "zap") (PStr "boom") (of_opt (Some "why")) in
  first.2 = Returns 1 /\ second.2 = Returns (-1) /\ second.1 = first.1 /\
  count_key second.1 "zap" "boom" 12 = 1%nat.
Proof.
  split; [reflexivity |].
  exact (proj2 (duplicate_insert_rejected (init_db None) reachable_init)
           12000 12999 "zap" "boom" None (Some "why") eq_refl).
Defined.

(** ** Status updates *)

Lemma valid_statuses_spec s :
  s ∈ valid_statuses <-> s = "unresolved" \/ s = "resolved" \/ s = "dismissed".
Proof.
  unfold valid_statuses. rewrite !elem_of_cons, elem_of_nil. tauto.
Qed.

Lemma rowcount_pos l log_id :
  (0 <? Z.of_nat (length (filter (fun r => id r = log_id) l))) = true
  <-> exists r, r ∈ l /\ id r = log_id.
Proof.
  rewrite Z.ltb_lt. split.
  - intros Hlen. destruct (filter (fun r => id r = log_id) l) as [|r l'] eqn:Hf.
    + simpl in Hlen. lia.
    + exists r. apply and_comm, (list_elem_of_filter (fun r => id r = log_id)).
      rewrite Hf. by left.
  - intros (r & Hin & Hid).
    assert (r ∈ filter (fun r => id r = log_id) l) as Hf
      by (by apply list_elem_of_filter).
    destruct (filter (fun r => id r = log_id) l); [by apply elem_of_nil in Hf |].
    simpl. lia.
Qed.

Lemma update_log_status_valid db log_id s :
  s ∈ valid_statuses -> sqlite_int64 log_id = true ->
  update_log_status db log_id s
  = ({| rows := (execute_update (rows db) log_id s).1; seq := seq db |},
     Returns (0 <? (execute_update (rows db) log_id s).2)).
Proof.
  intros Hv Hid. unfold update_log_status, bind_int.
  by rewrite (bool_decide_eq_true_2 _ Hv), Hid.
Qed.

Lemma update_log_status_overflow db log_id s :
  s ∈ valid_statuses -> sqlite_int64 log_id = false ->
  update_log_status db log_id s = (db, Raises OverflowError).
Proof.
  intros Hv Hid. unfold update_log_status, bind_int.
  by rewrite (bool_decide_eq_true_2 _ Hv), Hid.
Qed.

Lemma update_log_status_invalid db log_id s :
  s ∉ valid_statuses ->
  update_log_status db log_id s = (db, Raises ValueError_invalid_status).
Proof.
  intros Hv. unfold update_log_status. by rewrite (bool_decide_eq_false_2 _ Hv).
Qed.

(** C4, for an id that fits SQLite's signed 64-bit INTEGER.
    [update_log_status] raises a ValueError exactly when the new status is
    none of "unresolved", "resolved", "dismissed", whatever the id.  For a
    valid status and an id within the 64-bit range it returns, and the value
    returned is [True] exactly when the table holds a row with the given id;
    on the table just created, [update_log_status(9999, "resolved")] returns
    [False].  For a valid status and an id outside the range the call raises
    OverflowError and leaves the table as it is. *)
Theorem update_log_status_result :
  forall (db : Store) (log_id : Z) (new_status : string),
    ((exists msg, (update_log_status db log_id new_status).2 = Raises (ValueError msg))
     <-> ~ (new_status = "unresolved" \/ new_status = "resolved" \/ new_status = "dismissed"))
    /\ ((new_status = "unresolved" \/ new_status = "resolved" \/ new_status = "dismissed") ->
        -9223372036854775808 <= log_id <= 9223372036854775807 ->
        exists b, (update_log_status db log_id new_status).2 = Returns b /\
                  (b = true <-> exists r, r ∈ rows db /\ id r = log_id))
    /\ ((new_status = "unresolved" \/ new_status = "resolved" \/ new_status = "dismissed") ->
        ~ (-9223372036854775808 <= log_id <= 9223372036854775807) ->
        update_log_status db log_id new_status = (db, Raises OverflowError))
    /\ (update_log_status (init_db None) 9999 "resolved").2 = Returns false.
Proof.
  intros db log_id new_status. rewrite <- valid_statuses_spec.
  assert (sqlite_int64 log_id = true
          <-> -9223372036854775808 <= log_id <= 9223372036854775807) as Hrange.
  { unfold sqlite_int64. rewrite andb_true_iff, !Z.leb_le. tauto. }
  destruct (decide (new_status ∈ valid_statuses)) as [Hv | Hv].
  - destruct (sqlite_int64 log_id) eqn:Hid.
    + rewrite (update_log_status_valid _ _ _ Hv Hid). split_and!.
      * split; [intros [msg Hmsg]; discriminate | done].
      * intros _ _. eexists. split; [reflexivity |]. apply rowcount_pos.
      * intros _ Hout. destruct Hout. by apply Hrange.
      * reflexivity.
    + rewrite (update_log_status_overflow _ _ _ Hv Hid). split_and!.
      * split; [intros [msg Hmsg]; discriminate | done].
      * intros _ Hin. apply Hrange in Hin. discriminate.
      * done.
      * reflexivity.
  - rewrite (update_log_status_invalid _ _ _ Hv). split_and!.
    + split; [done | intros _; by eexists].
    + done.
    + done.
    + reflexivity.
Qed.

(** The theorem at a table with one row: updating the row's id succeeds,
    an id that is not there gives [False]. *)
Lemma update_log_status_result_witness :
  let db := (insert_error_log (init_db None) 5000 (PStr "zap") (PStr "boom") PNone).1 in
  (update_log_status db 1 "resolved").2 = Returns true /\
  (update_log_status db 9999 "resolved").2 = Returns false /\
  exists b, (update_log_status db 1 "dismissed").2 = Returns b /\
            (b = true <-> exists r, r ∈ rows db /\ id r = 1).
Proof.
  split; [reflexivity | split; [reflexivity |]].
  apply (proj1 (proj2 (update_log_status_result
                         (insert_error_log (init_db None) 5000 (PStr "zap") (PStr "boom") PNone).1
                         1 "dismissed")));
    [by right; right | lia].
Defined.

(** C4 fails for an id outside the 64-bit range: with a valid status and
    the id 2^63, which no row has, the call does not return [False]; it
    raises OverflowError (which is not the ValueError of an invalid
    status). *)
Lemma update_log_status_out_of_range :
  update_log_status (init_db None) 9223372036854775808 "resolved"
  = (init_db None, Raises OverflowError) /\
  ~ (exists b, (update_log_status (init_db None) 9223372036854775808 "resolved").2
               = Returns b) /\
  ~ (exists r, r ∈ rows (init_db None) /\ id r = 9223372036854775808).
Proof.
  split_and!.
  - reflexivity.
  - intros [b Hb]. discriminate.
  - intros (r & Hr & _). by apply elem_of_nil in Hr.
Qed.

Lemma execute_update_frame l log_id s :
  Forall2 (fun r r' => same_but_status r r' /\ (id r <> log_id -> r' = r))
          l (execute_update l log_id s).1.
Proof.
  unfold execute_update; simpl. induction l as [|r l IH]; simpl; constructor; [| done].
  destruct (id r =? log_id) eqn:Hid.
  - apply Z.eqb_eq in Hid. split; [by repeat split | intros Hne; by destruct Hne].
  - split; [by repeat split | done].
Qed.

Lemma same_id_same_row l r r' :
  NoDup (map id l) -> r ∈ l -> r' ∈ l -> id r' = id r -> r' = r.
Proof.
  induction l as [|a l IH]; simpl; intros Hnd Hr Hr' Hid.
  - by apply elem_of_nil in Hr.
  - apply NoDup_cons in Hnd as [Ha Hnd].
    apply elem_of_cons in Hr as [-> | Hr]; apply elem_of_cons in Hr' as [-> | Hr'].
    + done.
    + destruct Ha. rewrite <- Hid. by apply list_elem_of_fmap_2.
    + destruct Ha. rewrite Hid. by apply list_elem_of_fmap_2.
    + by apply IH.
Qed.

(** C5. [update_log_status] leaves every row in its place and changes at
    most the status of the rows with the given id: id, zap_name,
    error_message, explanation and timestamp of every row are as before, and
    a row with another id is as before altogether.  No other function of
    [db.py] changes a row that stays in the table: after any call that is
    not an update, a row carrying the id of a row from before the call is
    that very row. *)
Theorem only_status_is_updated :
  (forall (db : Store) (log_id : Z) (new_status : string),
      Forall2 (fun r r' => same_but_status r r' /\ (id r <> log_id -> r' = r))
              (rows db) (rows (update_log_status db log_id new_status).1))
  /\ (forall (db : Store) (c : call),
         reachable db -> is_update c = false ->
         forall r r', r ∈ rows db -> r' ∈ rows (run c db) -> id r' = id r -> r' = r).
Proof.
  split.
  - intros db log_id new_status.
    destruct (update_log_status_rows db log_id new_status) as [-> | ->].
    + apply Forall2_same_length_lookup_2; [done |].
      intros i r r' Hr Hr'. rewrite Hr in Hr'. injection Hr' as <-.
      split; [by repeat split | done].
    + apply execute_update_frame.
  - intros db c Hreach Hc r r' Hr Hr' Hid.
    pose proof (proj2 (reachable_unique db Hreach)) as Hids. unfold unique_ids in Hids.
    destruct c; simpl in *; try discriminate;
      try (by apply (same_id_same_row (rows db))).
    + destruct (insert_error_log_cases db clock zap_name0 error_message0 explanation0)
        as [Heq | (z & m & e & _ & _ & _ & Heq)]; rewrite Heq in Hr'.
      * by apply (same_id_same_row (rows db)).
      * simpl in Hr'. apply elem_of_app in Hr' as [Hr' | Hr'].
        -- by apply (same_id_same_row (rows db)).
        -- apply list_elem_of_singleton in Hr' as ->. simpl in Hid.
           destruct (next_rowid_fresh db). rewrite Hid. by apply list_elem_of_fmap_2.
    + by apply elem_of_nil in Hr'.
Qed.

(** The theorem at a table with one row and a call that inserts a second
    one: the row with id 1 found after the call is the row from before. *)
Lemma only_status_is_updated_witness :
  let db := (insert_error_log (init_db None) 5000 (PStr "zap") (PStr "boom") PNone).1 in
  let c := InsertErrorLog 7000 (PStr "zap") (PStr "bang") PNone in
  let r := mkRow 1 "zap" "boom" None 5 "unresolved" in
  let r' := default r (head (filter (fun x => id x = 1) (rows (run c db)))) in
  length (rows (run c db)) = 2%nat /\ r ∈ rows db /\ r' ∈ rows (run c db) /\ r' = r.
Proof.
  intros db c r r'.
  assert (r ∈ rows db) as Hr by (vm_compute; by left).
  assert (r' ∈ rows (run c db)) as Hr' by (vm_compute; by left).
  split_and!; [reflexivity | exact Hr | exact Hr' |].
  apply (proj2 only_status_is_updated db c); [| reflexivity | exact Hr | exact Hr' | reflexivity].
  apply (reachable_run (InsertErrorLog 5000 (PStr "zap") (PStr "boom") PNone)).
  apply reachable_init.
Defined.

(** ** Clearing and listing *)

Lemma order_by_timestamp_desc_perm l : order_by_timestamp_desc l ≡ₚ l.
Proof. apply merge_sort_Permutation. Qed.

Lemma order_by_timestamp_desc_nil : order_by_timestamp_desc [] = [].
Proof. apply Permutation_nil_r, order_by_timestamp_desc_perm. Qed.

(** C7. [clear_all_logs] returns the number of rows the table held, and
    [get_all_logs()] then returns the empty list; so it does for every
    limit that can be bound, any other limit raising OverflowError as on
    every table. *)
Theorem clear_all_logs_count :
  forall db : Store,
    (clear_all_logs db).2 = Z.of_nat (length (rows db)) /\
    get_all_logs (clear_all_logs db).1 default_limit = Returns [] /\
    forall limit : Z,
      get_all_logs (clear_all_logs db).1 limit
      = if sqlite_int64 limit then Returns [] else Raises OverflowError.
Proof.
  intros db. split; [reflexivity |].
  assert (forall limit, get_all_logs (clear_all_logs db).1 limit
                        = if sqlite_int64 limit then Returns [] else Raises OverflowError) as H.
  { intros limit. unfold get_all_logs, bind_int, sql_limit. cbn [clear_all_logs fst rows].
    destruct (sqlite_int64 limit); [| done].
    rewrite order_by_timestamp_desc_nil. destruct (limit <? 0); [done |].
    by rewrite take_nil. }
  split; [apply (H default_limit) | exact H].
Qed.

#[local] Instance newer_first_trans : Transitive newer_first.
Proof. unfold newer_first. intros a b c Hab Hbc. lia. Qed.

#[local] Instance newer_first_total : Total newer_first.
Proof. unfold newer_first. intros a b. lia. Qed.

Lemma order_by_timestamp_desc_sorted l :
  StronglySorted newer_first (order_by_timestamp_desc l).
Proof. apply (StronglySorted_merge_sort newer_first). Qed.

Lemma StronglySorted_newest_first l : StronglySorted newer_first l -> newest_first l.
Proof.
  induction 1 as [|a l Hl IH Hall]; intros i j x y Hij Hx Hy.
  - by rewrite lookup_nil in Hx.
  - destruct i as [|i], j as [|j]; simpl in *.
    + injection Hx as <-. injection Hy as <-. lia.
    + injection Hx as <-. rewrite Forall_forall in Hall.
      apply Hall. by apply list_elem_of_lookup_2 in Hy.
    + lia.
    + apply (IH i j); [lia | done | done].
Qed.

Lemma sqlite_int64_spec z :
  sqlite_int64 z = true <-> -9223372036854775808 <= z <= 9223372036854775807.
Proof. unfold sqlite_int64. rewrite andb_true_iff, !Z.leb_le. tauto. Qed.

Lemma get_all_logs_in_range db limit :
  sqlite_int64 limit = true ->
  get_all_logs db limit = Returns (sql_limit limit (order_by_timestamp_desc (rows db))).
Proof. intros H. unfold get_all_logs, bind_int. by rewrite H. Qed.

(** C6, for a limit that fits SQLite's signed 64-bit INTEGER.
    [get_all_logs] then returns rows, newest first.  When the limit is not
    negative they are at most [limit]; when the table holds more than
    [limit] rows they are [limit] rows, and the newest: the table is the
    returned rows together with rows none of which is newer than a returned
    one.  A negative limit is no limit: all rows are returned. *)
Theorem get_all_logs_newest_first_capped :
  forall (db : Store) (limit : Z),
    -9223372036854775808 <= limit <= 9223372036854775807 ->
    exists logs,
      get_all_logs db limit = Returns logs /\
      newest_first logs /\
      (0 <= limit ->
       Z.of_nat (length logs) <= limit /\
       (limit < Z.of_nat (length (rows db)) -> Z.of_nat (length logs) = limit) /\
       exists rest,
         rows db ≡ₚ logs ++ rest /\
         forall a b, a ∈ logs -> b ∈ rest -> timestamp b <= timestamp a) /\
      (limit < 0 -> logs ≡ₚ rows db).
Proof.
  intros db limit Hrange. apply sqlite_int64_spec in Hrange.
  rewrite (get_all_logs_in_range _ _ Hrange). eexists. split; [reflexivity |].
  unfold sql_limit.
  pose proof (order_by_timestamp_desc_sorted (rows db)) as Hsorted.
  pose proof (order_by_timestamp_desc_perm (rows db)) as Hperm.
  remember (order_by_timestamp_desc (rows db)) as sorted eqn:Heq. clear Heq.
  destruct (limit <? 0) eqn:Hneg.
  - apply Z.ltb_lt in Hneg. split_and!.
    + by apply StronglySorted_newest_first.
    + intros Hpos. lia.
    + done.
  - apply Z.ltb_ge in Hneg.
    pose proof Hsorted as Hsplit.
    rewrite <- (take_drop (Z.to_nat limit) sorted) in Hsplit.
    split_and!.
    + apply StronglySorted_newest_first. by apply StronglySorted_app_1_l in Hsplit.
    + intros _. split_and!.
      * rewrite length_take. lia.
      * intros Hmore. rewrite <- (Permutation_length Hperm) in Hmore.
        rewrite length_take. lia.
      * exists (drop (Z.to_nat limit) sorted). split.
        -- by rewrite take_drop.
        -- intros a b Ha Hb. apply (StronglySorted_app_1_elem_of _ _ _ _ _ Hsplit Ha Hb).
    + intros Hlt. lia.
Qed.

(** The theorem at a table of three rows and a limit of two: the two rows
    returned are the latest ones, the later first. *)
Lemma get_all_logs_newest_first_capped_witness :
  let db1 := (insert_error_log (init_db None) 5000 (PStr "zap") (PStr "one") PNone).1 in
  let db2 := (insert_error_log db1 9000 (PStr "zap") (PStr "two") PNone).1 in
  let db3 := (insert_error_log db2 7000 (PStr "zap") (PStr "three") PNone).1 in
  exists logs,
    get_all_logs db3 2 = Returns logs /\
    map error_message logs = ["two"; "three"] /\
    newest_first logs /\ Z.of_nat (length logs) <= 2.
Proof.
  intros db1 db2 db3.
  destruct (get_all_logs_newest_first_capped db3 2 ltac:(lia))
    as (logs & Hlogs & Hsorted & Hcap & _).
  exists logs. split; [exact Hlogs |].
  split; [| split; [exact Hsorted | apply Hcap; lia]].
  assert (get_all_logs db3 2
          = Returns [mkRow 2 "zap" "two" None 9 "unresolved";
                     mkRow 3 "zap" "three" None 7 "unresolved"]) as Heval
    by reflexivity.
  rewrite Heval in Hlogs. injection Hlogs as <-. reflexivity.
Defined.

(** C6 fails for a limit outside the 64-bit range: on a table of two rows
    [get_all_logs(2^63)] returns no list at all, it raises OverflowError.
    (With the limit -1 the same table is returned whole.) *)
Lemma get_all_logs_limit_out_of_range :
  let db1 := (insert_error_log (init_db None) 5000 (PStr "zap") (PStr "one") PNone).1 in
  let db2 := (insert_error_log db1 9000 (PStr "zap") (PStr "two") PNone).1 in
  get_all_logs db2 9223372036854775808 = Raises OverflowError /\
  ~ (exists logs, get_all_logs db2 9223372036854775808 = Returns logs) /\
  get_all_logs db2 (-1)
  = Returns [mkRow 2 "zap" "two" None 9 "unresolved";
             mkRow 1 "zap" "one" None 5 "unresolved"].
Proof.
  intros db1 db2. split_and!.
  - reflexivity.
  - intros [logs H]. discriminate.
  - reflexivity.
Qed.

(** ** The webhook endpoint *)

(** C3, as the code has it.  When [zap_name] or [error_message] is missing
    or falsy, [receive_zapier_payload] raises [HTTPException(400)] inside
    its [try] block; [except Exception] catches it, and the endpoint answers
    500, with the database untouched. *)
Theorem receive_zapier_payload_missing_fields :
  forall (db : Store) (clock : Z) (payload : gmap string pyval),
    truthy (dict_get payload "zap_name") = false \/
    truthy (dict_get payload "error_message") = false ->
    receive_zapier_payload db clock payload
    = (db, Raises (HTTPException 500 (StrOf missing_fields))) /\
    http_status 201 (receive_zapier_payload db clock payload).2 = 500.
Proof.
  intros db clock payload Hfalsy.
  assert (receive_zapier_payload db clock payload
          = (db, Raises (HTTPException 500 (StrOf missing_fields)))) as ->.
  { unfold receive_zapier_payload, receive_zapier_payload_try.
    destruct Hfalsy as [-> | ->]; simpl; [done |].
    by rewrite orb_true_r. }
  by split.
Qed.

(** The theorem at the empty body [{}] and the database just created: the
    answer is 500, not 400. *)
Lemma receive_zapier_payload_missing_fields_witness :
  receive_zapier_payload (init_db None) 5000 ∅
  = (init_db None, Raises (HTTPException 500 (StrOf missing_fields))) /\
  http_status 201 (receive_zapier_payload (init_db None) 5000 ∅).2 = 500.
Proof.
  exact (receive_zapier_payload_missing_fields (init_db None) 5000 ∅ (or_introl eq_refl)).
Defined.

Lemma receive_zapier_payload_get_eq db clock (payload1 payload2 : gmap string pyval) :
  payload1 !! "zap_name" = payload2 !! "zap_name" ->
  payload1 !! "error_message" = payload2 !! "error_message" ->
  receive_zapier_payload db clock payload1 = receive_zapier_payload db clock payload2.
Proof.
  intros Hz Hm. unfold receive_zapier_payload, receive_zapier_payload_try, dict_get.
  by rewrite Hz, Hm.
Qed.

Lemma delete_eq_lookup (payload1 payload2 : gmap string pyval) (k k' : string) :
  k <> k' -> delete k payload1 = delete k payload2 -> payload1 !! k' = payload2 !! k'.
Proof.
  intros Hne Heq.
  rewrite <- (lookup_delete_ne payload1 k k'), <- (lookup_delete_ne payload2 k k') by done.
  by rewrite Heq.
Qed.

Lemma insert_error_log_outcome db clock z m e :
  (exists x, insert_error_log db clock z m e = (db, Raises x)) \/
  insert_error_log db clock z m e = (db, Returns (-1)) \/
  exists z' m' e', insert_error_log db clock z m e
                   = (inserted db clock z' m' e', Returns (next_rowid db)).
Proof.
  unfold insert_error_log, execute_insert.
  destruct (bind_text z) as [[z'|]|]; destruct (bind_text m) as [[m'|]|];
    destruct (bind_text e) as [e'|]; simpl; eauto;
    try (destruct e0; simpl; by eauto).
  destruct (key_taken db z' m' (CURRENT_TIMESTAMP clock)); simpl; eauto 7.
Qed.

(** C10. The [timestamp] field of the body is read and never used: two
    bodies that differ at most in that field get the same answer and leave
    the same database, and a row the endpoint stores carries
    [CURRENT_TIMESTAMP] of the moment of the insert. *)
Theorem payload_timestamp_ignored :
  forall (db : Store) (clock : Z) (payload1 payload2 : gmap string pyval),
    delete "timestamp" payload1 = delete "timestamp" payload2 ->
    receive_zapier_payload db clock payload1 = receive_zapier_payload db clock payload2 /\
    (forall log_id,
        (receive_zapier_payload db clock payload1).2 = Returns (JsonId log_id) ->
        exists z m e,
          rows (receive_zapier_payload db clock payload1).1
          = (rows db ++ [mkRow log_id z m e (CURRENT_TIMESTAMP clock) "unresolved"])%list).
Proof.
  intros db clock payload1 payload2 Heq. split.
  - apply receive_zapier_payload_get_eq; by apply (delete_eq_lookup _ _ "timestamp").
  - intros log_id. unfold receive_zapier_payload, receive_zapier_payload_try.
    destruct (_ || _)%bool; [discriminate |].
    destruct (explain_error_any _) as [x|]; [| discriminate].
    destruct (insert_error_log_outcome db clock (dict_get payload1 "zap_name")
                (dict_get payload1 "error_message") (PStr x))
      as [[x' ->] | [-> | (z & m & e & ->)]]; simpl; [discriminate | discriminate |].
    destruct (next_rowid db =? -1) eqn:Hid; simpl; [discriminate |].
    intros [= <-]. by exists z, m, e.
Qed.

(** The theorem at two bodies for the same zap and message, one with a
    [timestamp] of its own and one without: the same row is stored, stamped
    with the second of the insert. *)
Lemma payload_timestamp_ignored_witness :
  let payload1 : gmap string pyval :=
    <["timestamp" := PStr "1999-12-31 23:59:59"]>
      (<["zap_name" := PStr "zap"]> (<["error_message" := PStr "rate limit hit"]> ∅)) in
  let payload2 : gmap string pyval :=
    <["zap_name" := PStr "zap"]> (<["error_message" := PStr "rate limit hit"]> ∅) in
  receive_zapier_payload (init_db None) 5000 payload1
  = receive_zapier_payload (init_db None) 5000 payload2 /\
  rows (receive_zapier_payload (init_db None) 5000 payload1).1
  = [mkRow 1 "zap" "rate limit hit" (Some "API rate limit reached") 5 "unresolved"].
Proof.
  intros payload1 payload2. split; [| vm_compute; reflexivity].
  apply (payload_timestamp_ignored (init_db None) 5000 payload1 payload2).
  subst payload1 payload2. apply delete_insert_id.
  vm_compute. reflexivity.
Defined.

(** ** Empty names and messages *)

Lemma str_int_nonempty z : str_int z <> EmptyString.
Proof.
  unfold str_int. destruct (Z.to_int z) as [d | d]; simpl; [| discriminate].
  unfold NilZero.string_of_uint. destruct d; simpl; discriminate.
Qed.

Lemma truthy_bind_text v s :
  truthy v = true -> bind_text v = Returns (Some s) -> s <> EmptyString.
Proof.
  destruct v as [| b | z | t | l | d]; simpl; try discriminate.
  - intros -> [= <-]. discriminate.
  - intros _. unfold bind_int. destruct (sqlite_int64 z); [| discriminate].
    intros [= <-]. apply str_int_nonempty.
  - intros Ht [= <-] ->. discriminate.
Qed.

(** X24. The webhook endpoint stores no empty zap_name and no empty
    error_message: its truth test on the two fields excludes them. *)
Lemma receive_zapier_payload_nonempty db clock payload r :
  r ∈ rows (receive_zapier_payload db clock payload).1 ->
  r ∈ rows db \/ (zap_name r <> EmptyString /\ error_message r <> EmptyString).
Proof.
  unfold receive_zapier_payload, receive_zapier_payload_try.
  destruct (truthy (dict_get payload "zap_name")) eqn:Hz; simpl; [| auto].
  destruct (truthy (dict_get payload "error_message")) eqn:Hm; simpl; [| auto].
  destruct (explain_error_any _) as [x|]; simpl; [| auto].
  destruct (insert_error_log_cases db clock (dict_get payload "zap_name")
              (dict_get payload "error_message") (PStr x))
    as [Hsame | (z & m & e & Hbz & Hbm & _ & ->)].
  - destruct (insert_error_log _ _ _ _ _) as [db' [i|]]; simpl in *; subst db';
      [destruct (i =? -1) |]; auto.
  - destruct (next_rowid db =? -1); simpl;
      (intros [Hin | ->%list_elem_of_singleton]%elem_of_app; [by left | right; simpl]);
      (split; [exact (truthy_bind_text _ _ Hz Hbz) | exact (truthy_bind_text _ _ Hm Hbm)]).
Qed.

(** C8, as the code has it.  POST /api/errors accepts a body whose
    [zap_name] and [error_message] are empty strings ([ErrorLogCreate] asks
    for strings and nothing more, and the columns are only NOT NULL), so the
    application reaches a database with a row that is empty in both fields. *)
Theorem create_error_log_stores_empty_strings :
  let error := mkErrorLogCreate EmptyString EmptyString None in
  let db := serve (PostErrors 5000 error) (init_db None) in
  served db /\
  (create_error_log (init_db None) 5000 error).2 = Returns (JsonId 1) /\
  rows db = [mkRow 1 EmptyString EmptyString (Some "No specific explanation available")
               5 "unresolved"].
Proof.
  intros error db. split; [| split; reflexivity].
  apply served_request, served_init.
Qed.

(** ** The CSV export *)

(** C9. When the selection is empty (an empty table, or no row with the
    status asked for), the CSV export has no column names: its header row
    is the bare line terminator and nothing follows it; this is not the
    header a selection with rows gets. *)
Theorem export_logs_empty_header :
  forall (strftime : Z -> string) (db : Store) (status : option string) (now_stamp : string),
    select_logs db status = Returns [] ->
    fieldnames_of strftime [] = [] /\
    export_logs strftime db status "csv" now_stamp
    = Returns (StreamingResponse lineterminator
                 ("attachment; filename=zapier_logs_" +:+ now_stamp +:+ ".csv")) /\
    lineterminator <> writeheader schema_header /\
    forall r logs, fieldnames_of strftime (r :: logs) = schema_header.
Proof.
  intros strftime db status now_stamp Hempty.
  unfold export_logs. rewrite Hempty. simpl.
  split_and!; [reflexivity | reflexivity | discriminate | reflexivity].
Qed.

(** The theorem at the table just created, and at a table whose only row
    is unresolved while resolved rows are asked for. *)
Lemma export_logs_empty_header_witness :
  let render := fun _ : Z => "2026-01-01 00:00:00" in
  let db := (insert_error_log (init_db None) 5000 (PStr "zap") (PStr "boom") PNone).1 in
  export_logs render (init_db None) None "csv" "20260101_000000"
  = Returns (StreamingResponse lineterminator
               "attachment; filename=zapier_logs_20260101_000000.csv") /\
  export_logs render db (Some "resolved") "csv" "20260101_000000"
  = Returns (StreamingResponse lineterminator
               "attachment; filename=zapier_logs_20260101_000000.csv").
Proof.
  intros render db. split.
  - exact (proj1 (proj2 (export_logs_empty_header render (init_db None) None
                           "20260101_000000" eq_refl))).
  - exact (proj1 (proj2 (export_logs_empty_header render db (Some "resolved")
                           "20260101_000000" eq_refl))).
Defined.

(** ** Row ids *)

Lemma update_log_status_seq db log_id s :
  seq (update_log_status db log_id s).1 = seq db.
Proof.
  unfold update_log_status, bind_int.
  destruct (negb _); [done |]. by destruct (sqlite_int64 log_id).
Qed.

Lemma run_seq_mono c db : seq db <= seq (run c db).
Proof.
  destruct c; simpl; try lia.
  - destruct (insert_error_log_cases db clock zap_name0 error_message0 explanation0)
      as [-> | (z & m & e & _ & _ & _ & ->)]; [lia |].
    simpl. unfold next_rowid. lia.
  - rewrite update_log_status_seq. lia.
Qed.

Lemma run_all_seq_mono cs db : seq db <= seq (run_all cs db).
Proof.
  revert db; induction cs as [|c cs IH]; intros db; simpl; [lia |].
  pose proof (run_seq_mono c db). pose proof (IH (run c db)). unfold run_all in *. lia.
Qed.

Lemma run_all_reachable cs db : reachable db -> reachable (run_all cs db).
Proof.
  revert db; induction cs as [|c cs IH]; intros db Hr; simpl; [done |].
  apply IH. by constructor.
Qed.

Lemma reachable_ids_bounded db :
  reachable db -> forall r, r ∈ rows db -> 1 <= id r <= seq db.
Proof.
  induction 1 as [|c db Hr IH]; simpl; [intros r Hin; by apply elem_of_nil in Hin |].
  destruct c; simpl; auto.
  - destruct (insert_error_log_cases db clock zap_name0 error_message0 explanation0)
      as [-> | (z & m & e & _ & _ & _ & ->)]; [auto |].
    simpl. intros r [Hin | ->%list_elem_of_singleton]%elem_of_app.
    + specialize (IH r Hin). unfold next_rowid. lia.
    + simpl. pose proof (next_rowid_pos db). lia.
  - destruct (update_log_status_rows db log_id new_status) as [-> | Hrows]; [auto |].
    intros r Hin. rewrite Hrows in Hin.
    assert (id r ∈ map id (rows db)) as Hid.
    { rewrite <- (execute_update_ids (rows db) log_id new_status).
      by apply list_elem_of_fmap_2. }
    apply list_elem_of_fmap in Hid as (r0 & -> & Hr0).
    rewrite update_log_status_seq. by apply IH.
  - intros r Hin. by apply elem_of_nil in Hin.
Qed.

(** X1. Row ids are never handed out twice.  Take a row of a reachable
    table and let any calls follow, deletions of all rows included: an
    insert that then stores a row gives it an id greater than the id of that
    earlier row. *)
Theorem rowid_never_reused :
  forall (db : Store) (cs : list call) (clock : Z) (z m e : pyval)
         (r : Row) (lastrowid : Z),
    reachable db ->
    r ∈ rows db ->
    (insert_error_log (run_all cs db) clock z m e).2 = Returns lastrowid ->
    lastrowid <> -1 ->
    id r < lastrowid.
Proof.
  intros db cs clock z m e r lastrowid Hr Hin Hret Hne.
  pose proof (reachable_ids_bounded db Hr r Hin) as Hbound.
  pose proof (run_all_seq_mono cs db) as Hmono.
  destruct (insert_error_log_outcome (run_all cs db) clock z m e)
    as [[x Hx] | [Hdup | (z' & m' & e' & Hins)]].
  - rewrite Hx in Hret. discriminate.
  - rewrite Hdup in Hret. simpl in Hret. congruence.
  - rewrite Hins in Hret. simpl in Hret. injection Hret as <-.
    unfold next_rowid. lia.
Qed.

(** The theorem at a table of one row that is cleared before the next
    insert: the new row gets id 2, not 1 again. *)
Lemma rowid_never_reused_witness :
  let db := (insert_error_log (init_db None) 5000 (PStr "zap") (PStr "boom") PNone).1 in
  (insert_error_log (run_all [ClearAllLogs] db) 9000 (PStr "zap") (PStr "boom") PNone).2
  = Returns 2 /\ 1 < 2.
Proof.
  intros db. split; [reflexivity |].
  apply (rowid_never_reused db [ClearAllLogs] 9000 (PStr "zap") (PStr "boom") PNone
           (mkRow 1 "zap" "boom" None 5 "unresolved") 2).
  - apply (reachable_run (InsertErrorLog 5000 (PStr "zap") (PStr "boom") PNone)).
    apply reachable_init.
  - vm_compute. by left.
  - reflexivity.
  - lia.
Defined.

(** ** Listing by status *)

Lemma elem_of_get_logs_by_status db s r :
  r ∈ get_logs_by_status db s <-> r ∈ rows db /\ status r = s.
Proof.
  unfold get_logs_by_status. rewrite (order_by_timestamp_desc_perm _).
  rewrite list_elem_of_filter. tauto.
Qed.

(** X2. [get_logs_by_status] returns exactly the rows of the table that
    have the status asked for, each as often as the table holds it, and
    returns them newest first; there is no cap on their number. *)
Theorem get_logs_by_status_exact :
  forall (db : Store) (s : string),
    get_logs_by_status db s ≡ₚ filter (fun r => status r = s) (rows db) /\
    (forall r, r ∈ get_logs_by_status db s <-> r ∈ rows db /\ status r = s) /\
    newest_first (get_logs_by_status db s).
Proof.
  intros db s. split_and!.
  - apply order_by_timestamp_desc_perm.
  - intros r. apply elem_of_get_logs_by_status.
  - apply StronglySorted_newest_first, order_by_timestamp_desc_sorted.
Qed.

(** ** Inserting *)

(** X3. An insert of two strings and an optional explanation returns [-1]
    exactly when the table already holds the triple of the two strings and
    the current second, and then changes nothing.  Otherwise it returns a
    positive id, the table grows by one row, and that row (the id, the two
    strings, the explanation as passed, the current second) is among the
    unresolved logs. *)
Theorem insert_error_log_stores_or_signals :
  forall (db : Store) (clock : Z) (z m : string) (e : option string),
    let ts := CURRENT_TIMESTAMP clock in
    let '(db', result) := insert_error_log db clock (PStr z) (PStr m) (of_opt e) in
    (result = Returns (-1) <-> (z, m, ts) ∈ map key (rows db)) /\
    (result = Returns (-1) -> db' = db) /\
    (result <> Returns (-1) ->
     exists rowid, result = Returns rowid /\ 1 <= rowid /\
                   length (rows db') = S (length (rows db)) /\
                   mkRow rowid z m e ts "unresolved" ∈ get_logs_by_status db' "unresolved").
Proof.
  intros db clock z m e ts. rewrite insert_error_log_str. fold ts.
  pose proof (next_rowid_pos db) as Hpos.
  destruct (key_taken db z m ts) eqn:Hk.
  - split_and!; [| done | done]. split; [intros _; by apply key_taken_spec | done].
  - split_and!.
    + split; [intros [= Heq]; lia |].
      intros Hin. apply key_taken_spec in Hin. congruence.
    + intros [= Heq]. lia.
    + intros _. exists (next_rowid db). split_and!; [done | done | |].
      * simpl. rewrite length_app. simpl. lia.
      * apply elem_of_get_logs_by_status. split; [| done].
        simpl. apply elem_of_app. right. by apply list_elem_of_singleton.
Qed.

(** X4. A [None] in place of the zap name or of the error message breaks a
    NOT NULL constraint; when the other of the two can be bound (it is
    [None], a string, a bool or an integer within the signed 64-bit range),
    the IntegrityError is caught like the one of a duplicate, so the insert
    returns [-1] and stores nothing. *)
Theorem insert_error_log_null_is_signalled :
  forall (db : Store) (clock : Z) (v : pyval) (e : option string),
    (exists s, bind_text v = Returns s) ->
    insert_error_log db clock PNone v (of_opt e) = (db, Returns (-1)) /\
    insert_error_log db clock v PNone (of_opt e) = (db, Returns (-1)).
Proof.
  intros db clock v e [s Hs]. unfold insert_error_log, execute_insert.
  rewrite Hs. destruct e, s; simpl; by split.
Qed.

Lemma insert_error_log_null_is_signalled_witness :
  insert_error_log (init_db None) 5000 PNone (PStr "boom") (of_opt None)
  = (init_db None, Returns (-1)) /\
  insert_error_log (init_db None) 5000 (PStr "boom") PNone (of_opt None)
  = (init_db None, Returns (-1)).
Proof.
  exact (insert_error_log_null_is_signalled (init_db None) 5000 (PStr "boom") None
           (ex_intro _ (Some "boom") eq_refl)).
Defined.

(** X5. Deduplication does not reach beyond the second.  When the same
    zap name and error message arrive again at a later second whose triple
    the table does not hold, the second insert stores a second row: both
    calls return ids and the table then holds a row for each second. *)
Theorem insert_error_log_next_second_is_stored :
  forall (db : Store) (clock1 clock2 : Z) (z m : string) (e1 e2 : option string),
    CURRENT_TIMESTAMP clock1 <> CURRENT_TIMESTAMP clock2 ->
    key_taken db z m (CURRENT_TIMESTAMP clock1) = false ->
    key_taken db z m (CURRENT_TIMESTAMP clock2) = false ->
    let first := insert_error_log db clock1 (PStr z) (PStr m) (of_opt e1) in
    let second := insert_error_log first.1 clock2 (PStr z) (PStr m) (of_opt e2) in
    exists id1 id2,
      first.2 = Returns id1 /\ second.2 = Returns id2 /\ id1 < id2 /\
      rows second.1
      = (rows db ++ [mkRow id1 z m e1 (CURRENT_TIMESTAMP clock1) "unresolved";
                     mkRow id2 z m e2 (CURRENT_TIMESTAMP clock2) "unresolved"])%list.
Proof.
  intros db clock1 clock2 z m e1 e2 Hne Hk1 Hk2 first second.
  subst second first. rewrite (insert_error_log_str db), Hk1. simpl.
  rewrite insert_error_log_str.
  assert (key_taken (inserted db clock1 z m e1) z m (CURRENT_TIMESTAMP clock2) = false) as ->.
  { unfold key_taken, inserted. simpl. rewrite existsb_app, orb_false_iff.
    split; [exact Hk2 |]. simpl. rewrite orb_false_r.
    unfold same_key. simpl. apply andb_false_iff. right. by apply Z.eqb_neq. }
  exists (next_rowid db), (next_rowid (inserted db clock1 z m e1)).
  split_and!; [done | done | |].
  - unfold next_rowid at 2. simpl. lia.
  - simpl. by rewrite <- app_assoc.
Qed.

Lemma insert_error_log_next_second_is_stored_witness :
  let first := insert_error_log (init_db None) 5999 (PStr "zap") (PStr "boom") (of_opt None) in
  let second := insert_error_log first.1 6000 (PStr "zap") (PStr "boom") (of_opt None) in
  exists id1 id2,
    first.2 = Returns id1 /\ second.2 = Returns id2 /\ id1 < id2 /\
    rows second.1
    = ([] ++ [mkRow id1 "zap" "boom" None 5 "unresolved";
              mkRow id2 "zap" "boom" None 6 "unresolved"])%list.
Proof.
  apply (insert_error_log_next_second_is_stored (init_db None) 5999 6000 "zap" "boom"
           None None); [vm_compute; discriminate | reflexivity | reflexivity].
Defined.

(** ** The status column *)

Lemma elem_of_execute_update l log_id s r' :
  r' ∈ (execute_update l log_id s).1 <->
  exists r, r ∈ l /\ r' = (if id r =? log_id then set_status s r else r).
Proof.
  unfold execute_update; simpl. rewrite list_elem_of_fmap.
  split; intros (r & H1 & H2); exists r; by split.
Qed.

Lemma reachable_status_valid db :
  reachable db -> forall r, r ∈ rows db -> status r ∈ valid_statuses.
Proof.
  induction 1 as [|c db Hr IH]; [intros r Hin; by apply elem_of_nil in Hin |].
  destruct c; cbn [run init_db]; auto.
  - destruct (insert_error_log_cases db clock zap_name0 error_message0 explanation0)
      as [-> | (z & m & e & _ & _ & _ & ->)]; [auto |].
    simpl. intros r [Hin | ->%list_elem_of_singleton]%elem_of_app; [auto |].
    simpl. by left.
  - destruct (decide (new_status ∈ valid_statuses)) as [Hv | Hv].
    + destruct (sqlite_int64 log_id) eqn:Hid.
      * rewrite (update_log_status_valid db log_id new_status Hv Hid). simpl.
        intros r' (r & Hin & ->)%elem_of_execute_update.
        destruct (id r =? log_id); [done | auto].
      * rewrite (update_log_status_overflow db log_id new_status Hv Hid). auto.
    + rewrite (update_log_status_invalid db log_id new_status Hv). auto.
  - intros r Hin. by apply elem_of_nil in Hin.
Qed.

(** X6. In every table the functions of [db.py] can produce, the status of
    every row is "unresolved", "resolved" or "dismissed"; so asking
    [get_logs_by_status] for any other status returns the empty list. *)
Theorem status_always_valid :
  forall db : Store,
    reachable db ->
    (forall r, r ∈ rows db ->
               status r = "unresolved" \/ status r = "resolved" \/ status r = "dismissed") /\
    (forall s, ~ (s = "unresolved" \/ s = "resolved" \/ s = "dismissed") ->
               get_logs_by_status db s = []).
Proof.
  intros db Hr. split.
  - intros r Hin. apply valid_statuses_spec. by apply (reachable_status_valid db).
  - intros s Hs. rewrite <- valid_statuses_spec in Hs.
    apply Permutation_nil_r. unfold get_logs_by_status.
    rewrite (order_by_timestamp_desc_perm _).
    rewrite filter_none; [done |].
    intros r Hin Hst. apply Hs. rewrite <- Hst. by apply (reachable_status_valid db).
Qed.

Lemma status_always_valid_witness :
  let db := (update_log_status
               (insert_error_log (init_db None) 5000 (PStr "zap") (PStr "boom") PNone).1
               1 "dismissed").1 in
  map status (rows db) = ["dismissed"] /\ get_logs_by_status db "bogus" = [].
Proof.
  intros db. split; [reflexivity |].
  apply (status_always_valid db).
  - apply (reachable_run (UpdateLogStatus 1 "dismissed")).
    apply (reachable_run (InsertErrorLog 5000 (PStr "zap") (PStr "boom") PNone)).
    apply reachable_init.
  - intros [H | [H | H]]; discriminate.
Defined.

(** X7. After [update_log_status] with a valid status and an id that can
    be bound (one within the signed 64-bit range), every row with the given
    id has the new status and is listed under it, and it is listed under no
    other status; the call returned [True] exactly when there is such a
    row.  Any status can follow any other. *)
Theorem update_log_status_moves_row :
  forall (db : Store) (log_id : Z) (new_status : string),
    new_status = "unresolved" \/ new_status = "resolved" \/ new_status = "dismissed" ->
    sqlite_int64 log_id = true ->
    let '(db', result) := update_log_status db log_id new_status in
    (result = Returns true <-> exists r, r ∈ rows db /\ id r = log_id) /\
    (forall r, r ∈ rows db -> id r = log_id ->
               result = Returns true /\
               set_status new_status r ∈ get_logs_by_status db' new_status) /\
    (forall r' s, r' ∈ get_logs_by_status db' s -> id r' = log_id -> s = new_status).
Proof.
  intros db log_id new_status Hv Hid. apply valid_statuses_spec in Hv.
  rewrite (update_log_status_valid _ _ _ Hv Hid). split_and!.
  - change (execute_update (rows db) log_id new_status).2
      with (Z.of_nat (length (filter (fun r => id r = log_id) (rows db)))).
    rewrite <- rowcount_pos. split; [by intros [= ->] | by intros ->].
  - intros r Hin Hr. split.
    + f_equal. apply rowcount_pos. by exists r.
    + apply elem_of_get_logs_by_status. simpl. split; [| done].
      apply elem_of_execute_update. exists r. split; [done |].
      by rewrite (proj2 (Z.eqb_eq _ _) Hr).
  - intros r' s [Hin Hst]%elem_of_get_logs_by_status Hr. simpl in Hin.
    apply elem_of_execute_update in Hin as (r & Hr0 & ->).
    destruct (id r =? log_id) eqn:Heq; [by rewrite <- Hst |].
    apply Z.eqb_neq in Heq. done.
Qed.

(** The theorem at a table with one unresolved row, whose id is 1: the
    update returns [True], and the row is then listed as resolved. *)
Lemma update_log_status_moves_row_witness :
  let db := (insert_error_log (init_db None) 5000 (PStr "zap") (PStr "boom") PNone).1 in
  let r := mkRow 1 "zap" "boom" None 5 "unresolved" in
  (update_log_status db 1 "resolved").2 = Returns true /\
  set_status "resolved" r ∈ get_logs_by_status (update_log_status db 1 "resolved").1 "resolved".
Proof.
  intros db r.
  pose proof (update_log_status_moves_row db 1 "resolved"
                (or_intror (or_introl eq_refl)) eq_refl) as H.
  destruct (update_log_status db 1 "resolved") as [db' result].
  apply (proj1 (proj2 H) r); [| reflexivity].
  vm_compute. by left.
Defined.

Lemma execute_update_twice l log_id s1 s2 :
  (execute_update (execute_update l log_id s1).1 log_id s2).1
  = (execute_update l log_id s2).1.
Proof.
  unfold execute_update; simpl. rewrite <- list_fmap_compose.
  apply list_fmap_ext. intros _ r _. simpl.
  destruct (id r =? log_id) eqn:Heq; simpl; by rewrite Heq.
Qed.

(** X8. Status updates of one id overwrite each other: after two updates
    with valid statuses the table is as after the second alone; in
    particular repeating an update changes nothing more.  An update with an
    invalid status leaves the table as it is. *)
Theorem update_log_status_last_wins :
  forall (db : Store) (log_id : Z) (s1 s2 : string),
    (s2 = "unresolved" \/ s2 = "resolved" \/ s2 = "dismissed") ->
    ((s1 = "unresolved" \/ s1 = "resolved" \/ s1 = "dismissed") ->
     (update_log_status (update_log_status db log_id s1).1 log_id s2).1
     = (update_log_status db log_id s2).1) /\
    (~ (s1 = "unresolved" \/ s1 = "resolved" \/ s1 = "dismissed") ->
     (update_log_status db log_id s1).1 = db).
Proof.
  intros db log_id s1 s2 Hv2. rewrite <- !valid_statuses_spec in *. split.
  - intros Hv1. destruct (sqlite_int64 log_id) eqn:Hid.
    + rewrite (update_log_status_valid _ _ _ Hv1 Hid).
      rewrite !(update_log_status_valid _ _ _ Hv2 Hid). cbn [fst rows seq].
      by rewrite execute_update_twice.
    + by rewrite (update_log_status_overflow _ _ _ Hv1 Hid).
  - intros Hv1. by rewrite (update_log_status_invalid _ _ _ Hv1).
Qed.

Lemma update_log_status_last_wins_witness :
  let db := (insert_error_log (init_db None) 5000 (PStr "zap") (PStr "boom") PNone).1 in
  (update_log_status (update_log_status db 1 "dismissed").1 1 "unresolved").1
  = (update_log_status db 1 "unresolved").1 /\
  (update_log_status db 1 "bogus").1 = db.
Proof.
  intros db. split.
  - apply (update_log_status_last_wins db 1 "dismissed" "unresolved");
      [by left | by right; right].
  - apply (update_log_status_last_wins db 1 "bogus" "unresolved"); [by left |].
    intros [H | [H | H]]; discriminate.
Defined.

Lemma execute_update_absent l log_id s :
  ~ (exists r, r ∈ l /\ id r = log_id) -> (execute_update l log_id s).1 = l.
Proof.
  intros Hf. unfold execute_update. cbn [fst]. rewrite <- (list_fmap_id l) at 2.
  apply list_fmap_ext. intros i r Hr. simpl.
  destruct (id r =? log_id) eqn:Heq; [| done].
  destruct Hf. exists r. apply Z.eqb_eq in Heq.
  split; [by apply list_elem_of_lookup_2 in Hr | done].
Qed.

Lemma update_log_cases db log_id s :
  ((s ∉ valid_statuses) /\
   update_log db log_id s
   = (db, Raises (HTTPException 400 (StrOf ValueError_invalid_status)))) \/
  (s ∈ valid_statuses /\ sqlite_int64 log_id = false /\
   update_log db log_id s = (db, Raises OverflowError)) \/
  (s ∈ valid_statuses /\ sqlite_int64 log_id = true /\
   ~ (exists r, r ∈ rows db /\ id r = log_id) /\
   update_log db log_id s = (db, Raises (HTTPException 404 (Text "Log not found")))) \/
  (s ∈ valid_statuses /\ sqlite_int64 log_id = true /\
   (exists r, r ∈ rows db /\ id r = log_id) /\
   update_log db log_id s
   = ((update_log_status db log_id s).1, Returns (JsonMessage "Status updated"))).
Proof.
  unfold update_log.
  destruct (decide (s ∈ valid_statuses)) as [Hv | Hv].
  - right. destruct (sqlite_int64 log_id) eqn:Hid.
    + right. rewrite (update_log_status_valid _ _ _ Hv Hid).
      pose proof (rowcount_pos (rows db) log_id) as Hcount.
      change (execute_update (rows db) log_id s).2
        with (Z.of_nat (length (filter (fun r => id r = log_id) (rows db)))).
      destruct (0 <? Z.of_nat (length (filter (fun r => id r = log_id) (rows db)))).
      * right. split_and!; [done | done | by apply Hcount | done].
      * left. assert (~ exists r, r ∈ rows db /\ id r = log_id) as Hf.
        { intros Hf. apply Hcount in Hf. discriminate. }
        split_and!; [done | done | done |]. cbn [negb]. f_equal.
        rewrite (execute_update_absent _ _ _ Hf). by destruct db.
    + left. rewrite (update_log_status_overflow _ _ _ Hv Hid). by split_and!.
  - rewrite (update_log_status_invalid _ _ _ Hv). left. by split.
Qed.

(** X9. PATCH /api/logs/{log_id} answers 400 exactly when the status is not
    one of the three values; for a valid status it answers 500 exactly when
    the id does not fit the signed 64-bit range (the OverflowError of the
    binding is no ValueError and is not caught), 404 exactly when the id
    fits and no row has it, and 200 exactly when the id fits and a row has
    it.  With any answer but 200 the table is unchanged.  The
    [except ValueError] of this handler lets its own 404 through. *)
Theorem update_log_status_codes :
  forall (db : Store) (log_id : Z) (update_status : string),
    let valid := update_status = "unresolved" \/ update_status = "resolved"
                 \/ update_status = "dismissed" in
    let fits := sqlite_int64 log_id = true in
    let found := exists r, r ∈ rows db /\ id r = log_id in
    let code := http_status 200 (update_log db log_id update_status).2 in
    (code = 400 <-> ~ valid) /\
    (code = 500 <-> valid /\ ~ fits) /\
    (code = 404 <-> valid /\ fits /\ ~ found) /\
    (code = 200 <-> valid /\ fits /\ found) /\
    (code <> 200 -> (update_log db log_id update_status).1 = db).
Proof.
  intros db log_id update_status valid fits found code. subst valid fits found code.
  rewrite <- valid_statuses_spec.
  destruct (update_log_cases db log_id update_status)
    as [[Hv ->] | [(Hv & Hid & ->) | [(Hv & Hid & Hf & ->) | (Hv & Hid & Hf & ->)]]];
    cbn [snd fst http_status]; rewrite ?Hid;
    (split_and!; [| | | | done]); split; intros H;
    try discriminate H; try tauto; try (destruct H as (_ & H & _); discriminate H);
    try (split; [done | discriminate]).
Qed.

(** ** The two ingestion endpoints *)

Lemma insert_error_log_full_cases db clock z m e :
  (exists x, insert_error_log db clock z m e = (db, Raises x)) \/
  insert_error_log db clock z m e = (db, Returns (-1)) \/
  exists z' m' e',
    bind_text z = Returns (Some z') /\ bind_text m = Returns (Some m') /\
    bind_text e = Returns e' /\
    key_taken db z' m' (CURRENT_TIMESTAMP clock) = false /\
    insert_error_log db clock z m e
    = (inserted db clock z' m' e', Returns (next_rowid db)).
Proof.
  unfold insert_error_log, execute_insert.
  destruct (bind_text z) as [[z'|]|]; destruct (bind_text m) as [[m'|]|];
    destruct (bind_text e) as [e'|]; simpl; eauto;
    try (destruct e0; simpl; by eauto).
  destruct (key_taken db z' m' (CURRENT_TIMESTAMP clock)) eqn:Hk; simpl; eauto 12.
Qed.

Lemma receive_zapier_payload_cases db clock payload :
  (exists e, receive_zapier_payload db clock payload
             = (db, Raises (HTTPException 500 (StrOf e)))) \/
  receive_zapier_payload db clock payload
  = (db, Returns (JSONResponse 409 "Duplicate log entry")) \/
  (exists z m e,
      bind_text (dict_get payload "zap_name") = Returns (Some z) /\
      bind_text (dict_get payload "error_message") = Returns (Some m) /\
      key_taken db z m (CURRENT_TIMESTAMP clock) = false /\
      receive_zapier_payload db clock payload
      = (inserted db clock z m e, Returns (JsonId (next_rowid db)))).
Proof.
  unfold receive_zapier_payload, receive_zapier_payload_try.
  destruct (_ || _)%bool; [left; by eexists |].
  destruct (explain_error_any _) as [x|]; [| left; by eexists].
  destruct (insert_error_log_full_cases db clock (dict_get payload "zap_name")
              (dict_get payload "error_message") (PStr x))
    as [[x' ->] | [-> | (z & m & e & Hz & Hm & _ & Hk & ->)]].
  - left. by eexists.
  - right. by left.
  - pose proof (next_rowid_pos db). destruct (next_rowid db =? -1) eqn:Hi.
    + apply Z.eqb_eq in Hi. lia.
    + right. right. by exists z, m, e.
Qed.

(** X10. POST /api/zapier_payload answers 201, 409 or 500 and nothing else
    (never 400).  It answers 201 exactly when it appended one row to the
    table, whose id is the one in the answer; with 409 or 500 the table is
    unchanged. *)
Theorem receive_zapier_payload_status_codes :
  forall (db : Store) (clock : Z) (payload : gmap string pyval),
    let '(db', o) := receive_zapier_payload db clock payload in
    (http_status 201 o = 201 \/ http_status 201 o = 409 \/ http_status 201 o = 500) /\
    (http_status 201 o = 201 ->
     exists r, rows db' = (rows db ++ [r])%list /\ o = Returns (JsonId (id r)) /\
               timestamp r = CURRENT_TIMESTAMP clock /\ status r = "unresolved") /\
    (http_status 201 o <> 201 -> db' = db).
Proof.
  intros db clock payload.
  destruct (receive_zapier_payload_cases db clock payload)
    as [[e ->] | [-> | (z & m & e & _ & _ & _ & ->)]]; simpl.
  - split_and!; [auto | discriminate | done].
  - split_and!; [auto | discriminate | done].
  - split_and!; [auto | | done]. intros _. by eexists.
Qed.

(** X11. A webhook body whose [error_message] is truthy but not a string
    (a number, [true], a list, an object) makes [explain_error] fail on
    [.lower()]; the endpoint answers 500 and stores nothing. *)
Theorem receive_zapier_payload_message_not_a_string :
  forall (db : Store) (clock : Z) (payload : gmap string pyval),
    truthy (dict_get payload "zap_name") = true ->
    truthy (dict_get payload "error_message") = true ->
    (forall s, dict_get payload "error_message" <> PStr s) ->
    receive_zapier_payload db clock payload
    = (db, Raises (HTTPException 500 (StrOf AttributeError))).
Proof.
  intros db clock payload Hz Hm Hns.
  unfold receive_zapier_payload, receive_zapier_payload_try. rewrite Hz, Hm. simpl.
  destruct (dict_get payload "error_message"); try done. by destruct (Hns s).
Qed.

Lemma receive_zapier_payload_message_not_a_string_witness :
  receive_zapier_payload (init_db None) 5000
    (<["zap_name" := PStr "zap"]> (<["error_message" := PInt 404]> ∅))
  = (init_db None, Raises (HTTPException 500 (StrOf AttributeError))).
Proof.
  apply receive_zapier_payload_message_not_a_string;
    [reflexivity | reflexivity | intros s; vm_compute; discriminate].
Defined.

(** X12. A webhook [zap_name] that is an integer within the signed 64-bit
    range (and not 0) is stored as its decimal text (the column has TEXT
    affinity), so it is the same zap as the one named by that text: within
    one second the body with the number and the body with the text are
    duplicates of each other. *)
Theorem receive_zapier_payload_integer_name :
  forall (db : Store) (clock1 clock2 : Z) (n : Z) (m : string),
    n <> 0 -> sqlite_int64 n = true -> m <> EmptyString ->
    CURRENT_TIMESTAMP clock1 = CURRENT_TIMESTAMP clock2 ->
    key_taken db (str_int n) m (CURRENT_TIMESTAMP clock1) = false ->
    let by_number : gmap string pyval :=
      <["zap_name" := PInt n]> (<["error_message" := PStr m]> ∅) in
    let by_text : gmap string pyval :=
      <["zap_name" := PStr (str_int n)]> (<["error_message" := PStr m]> ∅) in
    let first := receive_zapier_payload db clock1 by_number in
    first = (inserted db clock1 (str_int n) m (Some (explain_error m)),
             Returns (JsonId (next_rowid db))) /\
    receive_zapier_payload first.1 clock2 by_text
    = (first.1, Returns (JSONResponse 409 "Duplicate log entry")).
Proof.
  intros db clock1 clock2 n m Hn Hfits Hm Hsec Hk by_number by_text first.
  assert (truthy (PStr m) = true) as Htm.
  { simpl. destruct m; [done | reflexivity]. }
  assert (truthy (PInt n) = true) as Htn.
  { simpl. by rewrite (proj2 (Z.eqb_neq n 0) Hn). }
  pose proof (next_rowid_pos db) as Hpos.
  assert (first = (inserted db clock1 (str_int n) m (Some (explain_error m)),
                   Returns (JsonId (next_rowid db)))) as Hfirst.
  { subst first by_number.
    unfold receive_zapier_payload, receive_zapier_payload_try, dict_get.
    rewrite lookup_insert_eq, lookup_insert_ne, lookup_insert_eq by done.
    rewrite Htn, Htm. cbn [negb orb explain_error_any].
    unfold insert_error_log, execute_insert. cbn [bind_text]. unfold bind_int.
    rewrite Hfits, Hk.
    destruct (next_rowid db =? -1) eqn:Hi; [apply Z.eqb_eq in Hi; lia | done]. }
  split; [exact Hfirst |]. rewrite Hfirst. cbn [fst]. subst by_text.
  assert (truthy (PStr (str_int n)) = true) as Hts.
  { simpl. destruct (str_int n) eqn:Hs; [by destruct (str_int_nonempty n) | reflexivity]. }
  unfold receive_zapier_payload, receive_zapier_payload_try, dict_get.
  rewrite lookup_insert_eq, lookup_insert_ne, lookup_insert_eq by done.
  rewrite Hts, Htm. cbn [negb orb explain_error_any].
  rewrite (insert_error_log_str _ clock2 (str_int n) m (Some (explain_error m))).
  assert (key_taken (inserted db clock1 (str_int n) m (Some (explain_error m)))
            (str_int n) m (CURRENT_TIMESTAMP clock2) = true) as ->; [| done].
  apply key_taken_spec. simpl. rewrite map_app. apply elem_of_app. right.
  apply list_elem_of_singleton. unfold key. simpl. by rewrite Hsec.
Qed.

Lemma receive_zapier_payload_integer_name_witness :
  let by_number : gmap string pyval :=
    <["zap_name" := PInt 42]> (<["error_message" := PStr "boom"]> ∅) in
  let by_text : gmap string pyval :=
    <["zap_name" := PStr (str_int 42)]> (<["error_message" := PStr "boom"]> ∅) in
  let first := receive_zapier_payload (init_db None) 5000 by_number in
  first = (inserted (init_db None) 5000 (str_int 42) "boom" (Some (explain_error "boom")),
           Returns (JsonId (next_rowid (init_db None)))) /\
  receive_zapier_payload first.1 5999 by_text
  = (first.1, Returns (JSONResponse 409 "Duplicate log entry")).
Proof.
  apply (receive_zapier_payload_integer_name (init_db None) 5000 5999 42 "boom");
    [lia | reflexivity | discriminate | reflexivity | reflexivity].
Defined.

Lemma create_error_log_str db clock error :
  let explanation :=
    or_else (create_explanation error) (explain_error (create_error_message error)) in
  create_error_log db clock error =
  if key_taken db (create_zap_name error) (create_error_message error)
       (CURRENT_TIMESTAMP clock)
  then (db, Raises (HTTPException 409 (Text "Duplicate log entry")))
  else (inserted db clock (create_zap_name error) (create_error_message error)
          (Some explanation),
        Returns (JsonId (next_rowid db))).
Proof.
  intros explanation. unfold create_error_log. fold explanation.
  rewrite (insert_error_log_str db clock _ _ (Some explanation)).
  destruct (key_taken db _ _ _); [done |].
  pose proof (next_rowid_pos db). destruct (next_rowid db =? -1) eqn:Hi; [| done].
  apply Z.eqb_eq in Hi. lia.
Qed.

Lemma key_taken_inserted db clock clock' z m e :
  CURRENT_TIMESTAMP clock = CURRENT_TIMESTAMP clock' ->
  key_taken (inserted db clock z m e) z m (CURRENT_TIMESTAMP clock') = true.
Proof.
  intros Hsec. apply key_taken_spec. simpl. rewrite map_app. apply elem_of_app. right.
  apply list_elem_of_singleton. unfold key. simpl. by rewrite Hsec.
Qed.

(** X13. POST /api/errors answers 409 exactly when the table already holds
    the zap name and error message for the current second, and then changes
    nothing; otherwise it answers 201 and appends a row whose explanation
    is the one sent, or the classifier's when none (or an empty one) was
    sent.  The same body sent again within the second is answered 409. *)
Theorem create_error_log_status_codes :
  forall (db : Store) (clock clock' : Z) (error : ErrorLogCreate),
    CURRENT_TIMESTAMP clock = CURRENT_TIMESTAMP clock' ->
    let '(db', o) := create_error_log db clock error in
    let z := create_zap_name error in
    let m := create_error_message error in
    (http_status 201 o = 409 <-> (z, m, CURRENT_TIMESTAMP clock) ∈ map key (rows db)) /\
    (http_status 201 o = 409 -> db' = db) /\
    (http_status 201 o <> 409 ->
     http_status 201 o = 201 /\
     exists rowid,
       o = Returns (JsonId rowid) /\
       rows db' = (rows db ++
                   [mkRow rowid z m
                      (Some (match create_explanation error with
                             | Some s => if String.eqb s EmptyString
                                         then explain_error m else s
                             | None => explain_error m
                             end))
                      (CURRENT_TIMESTAMP clock) "unresolved"])%list) /\
    http_status 201 (create_error_log db' clock' error).2 = 409.
Proof.
  intros db clock clock' error Hsec. rewrite create_error_log_str.
  destruct (key_taken db _ _ _) eqn:Hk; cbv zeta.
  - split_and!; [| done | done |].
    + split; [intros _; by apply key_taken_spec | done].
    + rewrite create_error_log_str, <- Hsec, Hk. done.
  - split_and!.
    + split; [discriminate |]. intros Hin%key_taken_spec. congruence.
    + discriminate.
    + intros _. split; [done |]. by eexists.
    + rewrite create_error_log_str, (key_taken_inserted _ _ _ _ _ _ Hsec). done.
Qed.

Lemma create_error_log_status_codes_witness :
  let error := mkErrorLogCreate "zap" "auth expired" None in
  (create_error_log (init_db None) 5000 error).2 = Returns (JsonId 1) /\
  http_status 201
    (create_error_log (create_error_log (init_db None) 5000 error).1 5999 error).2 = 409.
Proof.
  intros error. split; [reflexivity |].
  pose proof (create_error_log_status_codes (init_db None) 5000 5999 error eq_refl) as H.
  exact (proj2 (proj2 (proj2 H))).
Defined.

(** X14. A webhook body with a non-empty string for [zap_name] and for
    [error_message], sent twice within one second, is answered 409 the
    second time (whatever else the two bodies hold), and the second request
    leaves the table as the first left it. *)
Theorem receive_zapier_payload_twice :
  forall (db : Store) (clock1 clock2 : Z) (payload1 payload2 : gmap string pyval)
         (z m : string),
    payload1 !! "zap_name" = Some (PStr z) -> payload2 !! "zap_name" = Some (PStr z) ->
    payload1 !! "error_message" = Some (PStr m) ->
    payload2 !! "error_message" = Some (PStr m) ->
    z <> EmptyString -> m <> EmptyString ->
    CURRENT_TIMESTAMP clock1 = CURRENT_TIMESTAMP clock2 ->
    let first := receive_zapier_payload db clock1 payload1 in
    (http_status 201 first.2 = 201 \/ http_status 201 first.2 = 409) /\
    receive_zapier_payload first.1 clock2 payload2
    = (first.1, Returns (JSONResponse 409 "Duplicate log entry")).
Proof.
  intros db clock1 clock2 payload1 payload2 z m Hz1 Hz2 Hm1 Hm2 Hz Hm Hsec first.
  assert (truthy (PStr z) = true) as Htz by (simpl; destruct z; done).
  assert (truthy (PStr m) = true) as Htm by (simpl; destruct m; done).
  assert (forall d c (p : gmap string pyval),
             p !! "zap_name" = Some (PStr z) -> p !! "error_message" = Some (PStr m) ->
             receive_zapier_payload d c p =
             if key_taken d z m (CURRENT_TIMESTAMP c)
             then (d, Returns (JSONResponse 409 "Duplicate log entry"))
             else (inserted d c z m (Some (explain_error m)),
                   Returns (JsonId (next_rowid d)))) as Hrecv.
  { intros d c p Hpz Hpm.
    unfold receive_zapier_payload, receive_zapier_payload_try, dict_get.
    rewrite Hpz, Hpm, Htz, Htm. cbn [negb orb explain_error_any].
    change (PStr (explain_error m)) with (of_opt (Some (explain_error m))).
    rewrite (insert_error_log_str d c z m (Some (explain_error m))).
    destruct (key_taken d z m (CURRENT_TIMESTAMP c)); [done |].
    pose proof (next_rowid_pos d). destruct (next_rowid d =? -1) eqn:Hi; [| done].
    apply Z.eqb_eq in Hi. lia. }
  subst first. rewrite (Hrecv db clock1 payload1 Hz1 Hm1).
  destruct (key_taken db z m (CURRENT_TIMESTAMP clock1)) eqn:Hk; cbn [fst snd].
  - split; [by right |]. by rewrite (Hrecv db clock2 payload2 Hz2 Hm2), <- Hsec, Hk.
  - split; [by left |].
    by rewrite (Hrecv _ clock2 payload2 Hz2 Hm2), (key_taken_inserted _ _ _ _ _ _ Hsec).
Qed.

Lemma receive_zapier_payload_twice_witness :
  let payload : gmap string pyval :=
    <["zap_name" := PStr "zap"]> (<["error_message" := PStr "boom"]> ∅) in
  let first := receive_zapier_payload (init_db None) 5000 payload in
  first.2 = Returns (JsonId 1) /\
  receive_zapier_payload first.1 5400 payload
  = (first.1, Returns (JSONResponse 409 "Duplicate log entry")).
Proof.
  intros payload first. split; [reflexivity |].
  apply (receive_zapier_payload_twice (init_db None) 5000 5400 payload payload "zap" "boom");
    (reflexivity || discriminate).
Defined.

(** ** The classifier, continued *)

Lemma lower_ascii_idem c : lower_ascii (lower_ascii c) = lower_ascii c.
Proof.
  destruct c as [[] [] [] [] [] [] [] []]; reflexivity.
Qed.

Lemma lower_idem s : lower (lower s) = lower s.
Proof.
  induction s as [|c s IH]; simpl; [done |]. by rewrite lower_ascii_idem, IH.
Qed.

Lemma scan_explanations_range table s :
  scan_explanations table s = no_explanation \/
  scan_explanations table s ∈ map snd table.
Proof.
  induction table as [|[p e] table IH]; simpl; [by left |].
  destruct (str_in p s).
  - right. by left.
  - destruct IH as [IH | IH]; [by left | right; by right].
Qed.

Lemma explain_error_nonempty s : explain_error s <> EmptyString.
Proof.
  unfold explain_error.
  destruct (scan_explanations_range ERROR_EXPLANATIONS (lower s)) as [-> | Hin];
    [discriminate |].
  remember (scan_explanations ERROR_EXPLANATIONS (lower s)) as x eqn:Hx. clear Hx.
  simpl in Hin.
  repeat (apply elem_of_cons in Hin as [-> | Hin]; [discriminate |]).
  by apply elem_of_nil in Hin.
Qed.

(** X15. The classifier does not look at the case of ASCII letters: a text
    and its lowercase form get the same explanation.  Its result is never
    empty, and a text that contains "not found" in any case gets "Resource
    was renamed or deleted" whatever else it contains. *)
Theorem explain_error_case_insensitive :
  forall error_msg : string,
    explain_error (lower error_msg) = explain_error error_msg /\
    explain_error error_msg <> EmptyString /\
    (occurs_in "not found" (lower error_msg) ->
     explain_error error_msg = "Resource was renamed or deleted").
Proof.
  intros error_msg. split_and!.
  - unfold explain_error. by rewrite lower_idem.
  - apply explain_error_nonempty.
  - intros Hocc%str_in_spec. unfold explain_error. simpl. by rewrite Hocc.
Qed.

Lemma explain_error_case_insensitive_witness :
  explain_error "Rate limit hit: record NOT FOUND" = "Resource was renamed or deleted".
Proof.
  apply (explain_error_case_insensitive "Rate limit hit: record NOT FOUND").
  apply str_in_spec. reflexivity.
Defined.

(** ** What the endpoints keep true of the table *)

Lemma or_else_nonempty a b : b <> EmptyString -> or_else a b <> EmptyString.
Proof.
  intros Hb. unfold or_else. destruct a as [s|]; [| done].
  destruct (String.eqb s EmptyString) eqn:Hs; [done |]. by apply String.eqb_neq in Hs.
Qed.

Lemma receive_zapier_payload_rows db clock payload :
  (receive_zapier_payload db clock payload).1 = db \/
  exists r s, rows (receive_zapier_payload db clock payload).1 = (rows db ++ [r])%list /\
              explanation r = Some (explain_error s).
Proof.
  unfold receive_zapier_payload, receive_zapier_payload_try.
  destruct (_ || _)%bool; [by left |].
  destruct (dict_get payload "error_message") as [| | | s | |]; simpl; try by left.
  destruct (insert_error_log_full_cases db clock (dict_get payload "zap_name")
              (PStr s) (PStr (explain_error s)))
    as [[x' ->] | [-> | (z & m & e & _ & _ & He & _ & ->)]]; [by left | by left |].
  right. simpl in He. injection He as <-.
  destruct (next_rowid db =? -1); simpl; by eexists _, s.
Qed.

(** X16. Every row the application stores has an explanation, and a
    non-empty one: both ingestion endpoints fill it in (with the
    classifier's text when the caller sent none), and no endpoint changes or
    removes it afterwards. *)
Theorem served_rows_have_explanation :
  forall db : Store,
    served db ->
    forall r, r ∈ rows db -> exists s, explanation r = Some s /\ s <> EmptyString.
Proof.
  induction 1 as [|q db Hs IH]; [intros r Hin; by apply elem_of_nil in Hin |].
  destruct q; cbn [serve]; auto.
  - destruct (receive_zapier_payload_rows db clock payload) as [-> | (r0 & s & -> & He)];
      [auto |].
    intros r [Hin | ->%list_elem_of_singleton]%elem_of_app; [auto |].
    exists (explain_error s). split; [done | apply explain_error_nonempty].
  - rewrite create_error_log_str.
    destruct (key_taken db _ _ _); cbn [fst]; [auto |].
    intros r [Hin | ->%list_elem_of_singleton]%elem_of_app; [auto |].
    eexists. split; [reflexivity |]. apply or_else_nonempty, explain_error_nonempty.
  - destruct (update_log_cases db log_id update_status)
      as [[Hv ->] | [(Hv & Hid & ->) | [(Hv & Hid & Hf & ->) | (Hv & Hid & Hf & ->)]]];
      cbn [fst]; auto.
    rewrite (update_log_status_valid _ _ _ Hv Hid). cbn [fst rows].
    intros r' (r & Hin & ->)%elem_of_execute_update.
    destruct (IH r Hin) as (s & He & Hne). exists s.
    split; [| done]. by destruct (id r =? log_id).
  - intros r Hin. by apply elem_of_nil in Hin.
Qed.

Lemma served_rows_have_explanation_witness :
  let db := serve (PostErrors 5000 (mkErrorLogCreate "zap" "boom" (Some EmptyString)))
              (init_db None) in
  map explanation (rows db) = [Some "No specific explanation available"] /\
  exists s, Some "No specific explanation available" = Some s /\ s <> EmptyString.
Proof.
  intros db. split; [reflexivity |].
  apply (served_rows_have_explanation db
           (served_request _ _ served_init)
           (mkRow 1 "zap" "boom" (Some "No specific explanation available") 5 "unresolved")).
  vm_compute. by left.
Defined.

(** ** Listing and exporting through the endpoints *)

Lemma get_all_logs_default db :
  get_all_logs db default_limit
  = Returns (take 1000 (order_by_timestamp_desc (rows db))).
Proof. reflexivity. Qed.

Lemma select_logs_returns db status :
  select_logs db status
  = Returns (match given status with
             | Some s => get_logs_by_status db s
             | None => take 1000 (order_by_timestamp_desc (rows db))
             end).
Proof. unfold select_logs. by destruct (given status). Qed.

(** X17. Without a status filter (none given, or an empty one) GET
    /api/logs returns the 1000 newest rows, or all rows when there are
    fewer, newest first, and drops the rest: every row it leaves out is no
    newer than any row it returns.  With a filter it returns exactly the
    rows of that status, however many there are, newest first. *)
Theorem get_logs_cap_only_without_filter :
  forall (db : Store) (s : string),
    get_logs db (Some EmptyString) = get_logs db None /\
    (exists logs rest,
        get_logs db None = Returns (JsonLogs logs) /\
        length logs = Nat.min 1000 (length (rows db)) /\
        newest_first logs /\
        rows db ≡ₚ logs ++ rest /\
        forall a b, a ∈ logs -> b ∈ rest -> timestamp b <= timestamp a) /\
    (s <> EmptyString ->
     exists logs,
       get_logs db (Some s) = Returns (JsonLogs logs) /\
       logs ≡ₚ filter (fun r => status r = s) (rows db) /\
       (forall r, r ∈ logs <-> r ∈ rows db /\ status r = s) /\
       newest_first logs).
Proof.
  intros db s. split_and!.
  - reflexivity.
  - pose proof (order_by_timestamp_desc_sorted (rows db)) as Hsorted.
    pose proof (order_by_timestamp_desc_perm (rows db)) as Hperm.
    rewrite <- (take_drop 1000 (order_by_timestamp_desc (rows db))) in Hsorted.
    exists (take 1000 (order_by_timestamp_desc (rows db))),
           (drop 1000 (order_by_timestamp_desc (rows db))).
    split_and!.
    + unfold get_logs. by rewrite select_logs_returns.
    + by rewrite length_take, (Permutation_length Hperm).
    + apply StronglySorted_newest_first. by apply StronglySorted_app_1_l in Hsorted.
    + by rewrite take_drop.
    + intros a b Ha Hb. apply (StronglySorted_app_1_elem_of _ _ _ _ _ Hsorted Ha Hb).
  - intros Hs. exists (get_logs_by_status db s). split_and!.
    + unfold get_logs. rewrite select_logs_returns. unfold given.
      apply String.eqb_neq in Hs. by rewrite Hs.
    + apply order_by_timestamp_desc_perm.
    + intros r. apply elem_of_get_logs_by_status.
    + apply StronglySorted_newest_first, order_by_timestamp_desc_sorted.
Qed.

(** The theorem at a table with one unresolved row and the filter
    "unresolved": the listing is that row. *)
Lemma get_logs_cap_only_without_filter_witness :
  let db := (insert_error_log (init_db None) 5000 (PStr "zap") (PStr "boom") PNone).1 in
  get_logs db (Some "unresolved")
  = Returns (JsonLogs [mkRow 1 "zap" "boom" None 5 "unresolved"]) /\
  exists logs,
    get_logs db (Some "unresolved") = Returns (JsonLogs logs) /\
    logs ≡ₚ filter (fun r => status r = "unresolved") (rows db) /\
    (forall r, r ∈ logs <-> r ∈ rows db /\ status r = "unresolved") /\
    newest_first logs.
Proof.
  intros db. split; [reflexivity |].
  apply (proj2 (proj2 (get_logs_cap_only_without_filter db "unresolved"))).
  discriminate.
Defined.

Lemma rowdict_get_row_dict strftime r :
  map (rowdict_get (row_dict strftime r)) schema_header = row_values strftime r.
Proof. reflexivity. Qed.

Lemma writerows_csv_lines strftime logs :
  writerows strftime schema_header logs = csv_lines strftime logs.
Proof.
  induction logs as [|r logs IH]; [done |].
  cbn [writerows csv_lines]. by rewrite rowdict_get_row_dict, IH.
Qed.

(** X18. For any format but "csv" the export answers 400, whatever the
    table holds.  For "csv" and a selection with at least one row, the file
    is the line of the six column names followed by one line per selected
    row, in the order of the selection, each holding the row's id, zap
    name, error message, explanation (empty when there is none), timestamp
    and status in the order of the header. *)
Theorem export_logs_layout :
  forall (strftime : Z -> string) (db : Store) (status : option string)
         (format now_stamp : string),
    (format <> "csv" ->
     export_logs strftime db status format now_stamp
     = Raises (HTTPException 400 (Text "Unsupported export format"))) /\
    (format = "csv" ->
     forall logs, select_logs db status = Returns logs -> logs <> [] ->
     export_logs strftime db status format now_stamp
     = Returns (StreamingResponse
                  (writerow schema_header +:+ csv_lines strftime logs)
                  ("attachment; filename=zapier_logs_" +:+ now_stamp +:+ ".csv"))).
Proof.
  intros strftime db status format now_stamp. unfold export_logs. split.
  - intros Hf. apply String.eqb_neq in Hf. by rewrite select_logs_returns, Hf.
  - intros -> logs -> Hlogs. rewrite String.eqb_refl.
    destruct logs as [|r logs]; [done |].
    change (fieldnames_of strftime (r :: logs)) with schema_header.
    unfold writeheader. by rewrite writerows_csv_lines.
Qed.

Lemma export_logs_layout_witness :
  let render := fun _ : Z => "2026-01-01 00:00:00" in
  let db := (insert_error_log (init_db None) 5000 (PStr "zap") (PStr "a,b") PNone).1 in
  let logs := [mkRow 1 "zap" "a,b" None 5 "unresolved"] in
  export_logs render db None "json" "20260101_000000"
  = Raises (HTTPException 400 (Text "Unsupported export format")) /\
  export_logs render db None "csv" "20260101_000000"
  = Returns (StreamingResponse
               (writerow schema_header +:+ csv_lines render logs)
               "attachment; filename=zapier_logs_20260101_000000.csv").
Proof.
  intros render db logs. split.
  - apply (proj1 (export_logs_layout render db None "json" "20260101_000000")).
    discriminate.
  - apply (proj2 (export_logs_layout render db None "csv" "20260101_000000"));
      [reflexivity | reflexivity | discriminate].
Defined.

(** ** Clearing, continued *)

(** X20. DELETE /api/logs answers with the number of rows it deleted, and
    any listing that follows is empty, filtered or not.  Clearing forgets
    which triples were stored but not which ids were used: the next insert
    of two strings is stored whatever the table held before, and its id is
    above the counter of the cleared table. *)
Theorem delete_all_logs_then :
  forall (db : Store) (status : option string) (clock : Z) (z m : string)
         (e : option string),
    let '(db', o) := delete_all_logs db in
    o = Returns (JsonMessage ("Deleted " +:+ str_int (Z.of_nat (length (rows db)))
                                +:+ " logs")) /\
    get_logs db' status = Returns (JsonLogs []) /\
    exists rowid,
      seq db < rowid /\ 1 <= rowid /\
      insert_error_log db' clock (PStr z) (PStr m) (of_opt e)
      = ({| rows := [mkRow rowid z m e (CURRENT_TIMESTAMP clock) "unresolved"];
            seq := rowid |},
         Returns rowid).
Proof.
  intros db status clock z m e. unfold delete_all_logs, clear_all_logs.
  split_and!.
  - reflexivity.
  - unfold get_logs. rewrite select_logs_returns. do 2 f_equal.
    destruct (given status) as [s|].
    + unfold get_logs_by_status. cbn [rows]. rewrite filter_nil.
      apply order_by_timestamp_desc_nil.
    + cbn [rows]. by rewrite order_by_timestamp_desc_nil.
  - rewrite insert_error_log_str. unfold key_taken, inserted, next_rowid. simpl.
    exists (Z.max (seq db) 0 + 1). split_and!; [lia | lia | done].
Qed.

(** ** Limits at the edges *)

(** X21. [get_all_logs] with limit 0 returns nothing.  With a limit that
    fits the signed 64-bit range and is negative, or at least the number of
    rows, it loses no row: the result is the whole table, newest first.
    With a limit outside that range it raises OverflowError. *)
Theorem get_all_logs_limit_edges :
  forall (db : Store) (limit : Z),
    get_all_logs db 0 = Returns [] /\
    (sqlite_int64 limit = true ->
     limit < 0 \/ Z.of_nat (length (rows db)) <= limit ->
     exists logs, get_all_logs db limit = Returns logs /\
                  logs ≡ₚ rows db /\ newest_first logs) /\
    (sqlite_int64 limit = false -> get_all_logs db limit = Raises OverflowError).
Proof.
  intros db limit. split_and!.
  - reflexivity.
  - intros Hfits Hlimit. rewrite (get_all_logs_in_range _ _ Hfits). unfold sql_limit.
    exists (order_by_timestamp_desc (rows db)). split_and!.
    + f_equal. destruct (limit <? 0) eqn:Hneg; [done |]. apply Z.ltb_ge in Hneg.
      apply take_ge. rewrite (Permutation_length (order_by_timestamp_desc_perm _)). lia.
    + apply order_by_timestamp_desc_perm.
    + apply StronglySorted_newest_first, order_by_timestamp_desc_sorted.
  - intros Hfits. unfold get_all_logs, bind_int. by rewrite Hfits.
Qed.

Lemma get_all_logs_limit_edges_witness :
  let db := (insert_error_log (init_db None) 5000 (PStr "zap") (PStr "boom") PNone).1 in
  (exists logs, get_all_logs db 1 = Returns logs /\
                logs ≡ₚ rows db /\ newest_first logs) /\
  get_all_logs db (-9223372036854775809) = Raises OverflowError.
Proof.
  intros db. split.
  - apply (proj1 (proj2 (get_all_logs_limit_edges db 1))); [reflexivity |].
    right. vm_compute. discriminate.
  - apply (proj2 (proj2 (get_all_logs_limit_edges db (-9223372036854775809)))).
    reflexivity.
Defined.

(** ** More on what the webhook endpoint answers *)

(** X22. A webhook [zap_name] that is a non-empty list or object cannot be
    bound to the statement; with a usable error message the insert raises an
    sqlite3 error that is no IntegrityError, and the endpoint answers 500
    and stores nothing. *)
Theorem receive_zapier_payload_unbindable_name :
  forall (db : Store) (clock : Z) (payload : gmap string pyval) (m : string),
    truthy (dict_get payload "zap_name") = true ->
    bind_text (dict_get payload "zap_name") = Raises sqlite3_Error ->
    payload !! "error_message" = Some (PStr m) -> m <> EmptyString ->
    receive_zapier_payload db clock payload
    = (db, Raises (HTTPException 500 (StrOf sqlite3_Error))).
Proof.
  intros db clock payload m Hz Hb Hm Hne.
  unfold receive_zapier_payload, receive_zapier_payload_try.
  rewrite Hz. unfold dict_get at 1 2. rewrite Hm.
  assert (truthy (PStr m) = true) as -> by (simpl; destruct m; done).
  cbn [negb orb explain_error_any].
  unfold insert_error_log, execute_insert. by rewrite Hb.
Qed.

Lemma receive_zapier_payload_unbindable_name_witness :
  receive_zapier_payload (init_db None) 5000
    (<["zap_name" := PList [PStr "zap"]]> (<["error_message" := PStr "boom"]> ∅))
  = (init_db None, Raises (HTTPException 500 (StrOf sqlite3_Error))).
Proof.
  apply (receive_zapier_payload_unbindable_name (init_db None) 5000 _ "boom");
    (reflexivity || discriminate).
Defined.

(** The lemma on non-empty fields at a stored row: a webhook body with a
    number for a name stores a row whose name and message are not empty. *)
Lemma receive_zapier_payload_nonempty_witness :
  let payload : gmap string pyval :=
    <["zap_name" := PInt 7]> (<["error_message" := PStr "boom"]> ∅) in
  let r := mkRow 1 "7" "boom" (Some "No specific explanation available") 5 "unresolved" in
  rows (receive_zapier_payload (init_db None) 5000 payload).1 = [r] /\
  (r ∈ rows (init_db None) \/ (zap_name r <> EmptyString /\ error_message r <> EmptyString)).
Proof.
  intros payload r. split; [reflexivity |].
  apply (receive_zapier_payload_nonempty (init_db None) 5000 payload r).
  vm_compute. by left.
Defined.

(** ** The primary key *)

(** X23. In every table the functions of [db.py] can produce, no two rows
    share an id, every id is at least 1 and none is above the AUTOINCREMENT
    counter. *)
Theorem reachable_ids_unique_positive :
  forall db : Store,
    reachable db ->
    NoDup (map id (rows db)) /\
    forall r, r ∈ rows db -> 1 <= id r <= seq db.
Proof.
  intros db Hr. split.
  - exact (proj2 (reachable_unique db Hr)).
  - by apply reachable_ids_bounded.
Qed.

Lemma reachable_ids_unique_positive_witness :
  let db1 := (insert_error_log (init_db None) 5000 (PStr "zap") (PStr "one") PNone).1 in
  let db2 := (insert_error_log db1 5000 (PStr "zap") (PStr "two") PNone).1 in
  map id (rows db2) = [1; 2] /\ NoDup (map id (rows db2)).
Proof.
  intros db1 db2. split; [reflexivity |].
  apply (reachable_ids_unique_positive db2).
  apply (reachable_run (InsertErrorLog 5000 (PStr "zap") (PStr "two") PNone)).
  apply (reachable_run (InsertErrorLog 5000 (PStr "zap") (PStr "one") PNone)).
  apply reachable_init.
Defined.
